(** * QUANTUM-LEAP: the PCM decoder and the leap orchestration

    A shallow embedding of [src/App.tsx] (the [App] component's
    [handleLeap]) and of the Gemini service module that follows it in the
    same file ([decode], [decodeAudioData], [generateLeapAudio]).

    - typed arrays are lists indexed with stdpp's lookup and insert; a store
      out of range is dropped, a load out of range is [undefined];
    - a rejected promise / thrown exception is the [Throw] case of [result];
    - the numbers the decoder computes are dyadic rationals with a 16-bit
      numerator, exact in binary32 and binary64, so they are carried as [Q]. *)

From Stdlib Require Import ZArith QArith Qround Qabs Lqa Lia String Ascii.
From Stdlib.Strings Require Import Byte.
From stdpp Require Import base option list.

(* ------------------------------------------------------------------ *)
(** ** Exceptions *)

Inductive JsError : Type :=
  | RangeError              (* typed-array constructor, misaligned buffer *)
  | NotSupportedError       (* Web Audio: argument outside nominal range *)
  | InvalidCharacterError   (* atob on text that is not base64 *)
  | TypeError               (* calling something that is not a function *)
  | Error (msg : string).   (* throw new Error(msg) *)

Inductive result (A : Type) : Type :=
  | Ok (a : A)
  | Throw (e : JsError).
Arguments Ok {A} a.
Arguments Throw {A} e.

Definition bind {A B : Type} (r : result A) (k : A -> result B) : result B :=
  match r with
  | Ok a => k a
  | Throw e => Throw e
  end.

Notation "'let!' x ':=' r 'in' k" := (bind r (fun x => k))
  (at level 10, x name, r at level 100, k at level 200).

Definition is_ok {A : Type} (r : result A) : bool :=
  match r with Ok _ => true | Throw _ => false end.

(* ------------------------------------------------------------------ *)
(** ** Typed arrays *)

(** Typed-array views read multi-byte elements in the byte order of the
    machine the script runs on (ECMAScript leaves it to the implementation,
    as the [[LittleEndian]] field of the agent). *)
Inductive endianness : Type := LittleEndian | BigEndian.

Definition byte_to_Z (b : byte) : Z := Z.of_N (Byte.to_N b).

(** A [Uint8Array]: a view of [byteLength] bytes at [byteOffset] into
    [buffer]. *)
Record Uint8Array : Type := {
  buffer : list byte;
  byteOffset : nat;
  byteLength : nat
}.

(** [new Uint8Array(len)] followed by stores into every slot, as [decode]
    does: a view of a whole, fresh buffer. *)
Definition Uint8Array_of (bs : list byte) : Uint8Array :=
  {| buffer := bs; byteOffset := 0; byteLength := length bs |}.

(** Two's complement reading of an unsigned 16-bit value. *)
Definition toInt16 (u : Z) : Z :=
  if (u <? 32768)%Z then u else (u - 65536)%Z.

(** The element a 16-bit view finds in two consecutive bytes [b0 b1]
    ([b0] at the lower address). *)
Definition int16_of_pair (host : endianness) (b0 b1 : byte) : Z :=
  match host with
  | LittleEndian => toInt16 (Z.lor (byte_to_Z b0) (Z.shiftl (byte_to_Z b1) 8))
  | BigEndian => toInt16 (Z.lor (byte_to_Z b1) (Z.shiftl (byte_to_Z b0) 8))
  end.

Fixpoint int16_elements (host : endianness) (bs : list byte) : list Z :=
  match bs with
  | b0 :: b1 :: rest => int16_of_pair host b0 b1 :: int16_elements host rest
  | _ => []
  end.

(** [new Int16Array(arrayBuffer)]: a view of the whole buffer; the
    constructor throws a RangeError when the buffer's byte length is not a
    multiple of the element size. *)
Definition Int16Array_new (host : endianness) (arrayBuffer : list byte)
  : result (list Z) :=
  if Nat.even (length arrayBuffer)
  then Ok (int16_elements host arrayBuffer)
  else Throw RangeError.

(* ------------------------------------------------------------------ *)
(** ** Numbers and the Web Audio buffer *)

(** The values stored in a [Float32Array] here: a rational, or NaN (what
    [undefined / 32768.0] evaluates to). *)
Inductive float : Type :=
  | Num (q : Q)
  | NaN.

(** [x / 32768.0] for [x] an element load, [None] being [undefined]. *)
Definition normalize (x : option Z) : float :=
  match x with
  | Some s => Num (inject_Z s / 32768)
  | None => NaN
  end.

Record AudioBuffer : Type := {
  sampleRate : Z;
  numberOfChannels : nat;
  frameLength : nat;                 (* AudioBuffer.length *)
  channels : list (list float)       (* one Float32Array per channel *)
}.

(** What an implementation of the Web Audio API supports.  The standard
    asks for at least 32 channels and the rates 8000 to 96000. *)
Record AudioContext : Type := {
  maxChannels : nat;
  minSampleRate : Z;
  maxSampleRate : Z
}.

Definition baselineContext : AudioContext :=
  {| maxChannels := 32; minSampleRate := 8000; maxSampleRate := 96000 |}.

(** Conversion of a non-negative number to the [unsigned long] that
    [createBuffer] takes as its length: the fraction is cut off.  (The
    reduction modulo 2^32 is left out: no decoded response comes near 2^32
    frames.) *)
Definition toUnsignedLong (x : Q) : nat := Z.to_nat (Qfloor x).

(** [ctx.createBuffer(numberOfChannels, length, sampleRate)]: a buffer of
    zeros, or NotSupportedError when an argument is zero or outside its
    nominal range. *)
Definition createBuffer (ctx : AudioContext)
    (nChannels : nat) (len : nat) (rate : Z) : result AudioBuffer :=
  if (nChannels =? 0)%nat || (maxChannels ctx <? nChannels)%nat
     || (len =? 0)%nat
     || (rate <? minSampleRate ctx)%Z || (maxSampleRate ctx <? rate)%Z
  then Throw NotSupportedError
  else Ok {| sampleRate := rate;
             numberOfChannels := nChannels;
             frameLength := len;
             channels := replicate nChannels (replicate len (Num 0)) |}.

(** [buffer.getChannelData(channel)[i] = v]: the array returned by
    [getChannelData] is the buffer's own storage, so the store shows in the
    buffer; a store past the end of the array is dropped. *)
Definition setSample (b : AudioBuffer) (channel i : nat) (v : float)
  : AudioBuffer :=
  {| sampleRate := sampleRate b;
     numberOfChannels := numberOfChannels b;
     frameLength := frameLength b;
     channels := alter (fun channelData => <[i := v]> channelData)
                       channel (channels b) |}.

(** [for (let i = 0; i < bound; i++) body]: [i] takes the values
    0, 1, ... below [bound], which need not be an integer. *)
Definition for_upto {S : Type} (bound : Q) (body : S -> nat -> S) (s : S) : S :=
  foldl body s (seq 0 (Z.to_nat (Qceiling bound))).

(* ------------------------------------------------------------------ *)
(** ** The decoder *)

Definition nat_to_Q (n : nat) : Q := inject_Z (Z.of_nat n).

(** [decodeAudioData(data, ctx, sampleRate, numChannels)].
    [frameCount] is the quotient of two numbers, not an integer division.
    The double nearest to the quotient of two array lengths lies on the same
    side of every integer as the quotient itself, so the loop bound and the
    truncation are those of the exact quotient.  For [numChannels = 0]
    JavaScript gives Infinity or NaN, which the [unsigned long] conversion
    turns into 0, the value [Qdiv] gives. *)
Definition decodeAudioData (host : endianness)
    (data : Uint8Array) (ctx : AudioContext)
    (sampleRate : Z) (numChannels : nat) : result AudioBuffer :=
  let! dataInt16 := Int16Array_new host (buffer data) in
  let frameCount : Q := (nat_to_Q (length dataInt16) / nat_to_Q numChannels)%Q in
  let! buffer := createBuffer ctx numChannels (toUnsignedLong frameCount) sampleRate in
  Ok (for_upto (nat_to_Q numChannels)
        (fun buffer channel =>
           for_upto frameCount
             (fun buffer i =>
                setSample buffer channel i
                  (normalize (dataInt16 !! (i * numChannels + channel)%nat)))
             buffer)
        buffer).

(* ------------------------------------------------------------------ *)
(** ** Strings

    A JavaScript string is carried as a [string] whose characters are its
    code units; the model covers the code units below 256. *)

Definition charCode (c : ascii) : N := N_of_ascii c.

Definition in_range (lo hi n : N) : bool := ((lo <=? n) && (n <=? hi))%N.

(** White space and line terminators that [trim] strips (of those below
    256: TAB, LF, VT, FF, CR, SP and NBSP). *)
Definition isWhiteSpace (c : ascii) : bool :=
  let n := charCode c in
  (in_range 9 13 n || (n =? 32) || (n =? 160))%N.

Fixpoint trimStart (s : string) : string :=
  match s with
  | String c s' => if isWhiteSpace c then trimStart s' else s
  | EmptyString => EmptyString
  end.

Fixpoint reverse (s : string) (acc : string) : string :=
  match s with
  | String c s' => reverse s' (String c acc)
  | EmptyString => acc
  end.

Definition trimEnd (s : string) : string :=
  reverse (trimStart (reverse s EmptyString)) EmptyString.

(** [s.trim()] *)
Definition trim (s : string) : string := trimEnd (trimStart s).

(** [!s] for a string [s]: only the empty string is falsy. *)
Definition falsy (s : string) : bool :=
  match s with EmptyString => true | String _ _ => false end.

(** [s.toLowerCase()], on Latin-1: A-Z and the accented capitals
    U+00C0-U+00DE (without the multiplication sign U+00D7) move up by 32. *)
Definition lowerChar (c : ascii) : ascii :=
  let n := charCode c in
  if (in_range 65 90 n || (in_range 192 222 n && negb (n =? 215)))%N
  then ascii_of_N (n + 32)
  else c.

Fixpoint toLowerCase (s : string) : string :=
  match s with
  | String c s' => String (lowerChar c) (toLowerCase s')
  | EmptyString => EmptyString
  end.

(** [s.includes(sub)] *)
Fixpoint includes (s sub : string) : bool :=
  String.prefix sub s ||
  match s with
  | String _ s' => includes s' sub
  | EmptyString => false
  end.

(* ------------------------------------------------------------------ *)
(** ** Base64: [atob] and [decode] *)

Definition isAsciiWhitespace (c : ascii) : bool :=
  let n := charCode c in
  ((n =? 9) || (n =? 10) || (n =? 12) || (n =? 13) || (n =? 32))%N.

(** Value of a character of the standard base64 alphabet. *)
Definition sextet (c : ascii) : option N :=
  let n := charCode c in
  if in_range 65 90 n then Some (n - 65)%N
  else if in_range 97 122 n then Some (n - 71)%N
  else if in_range 48 57 n then Some (n + 4)%N
  else if (n =? 43)%N then Some 62%N
  else if (n =? 47)%N then Some 63%N
  else None.

Definition stripPadding (cs : list ascii) : list ascii :=
  if (length cs mod 4 =? 0)%nat then
    match rev cs with
    | "="%char :: "="%char :: r => rev r
    | "="%char :: r => rev r
    | _ => cs
    end
  else cs.

Fixpoint sextets (cs : list ascii) : option (list N) :=
  match cs with
  | [] => Some []
  | c :: cs' =>
      match sextet c, sextets cs' with
      | Some v, Some vs => Some (v :: vs)
      | _, _ => None
      end
  end.

Definition octet (n : N) : ascii := ascii_of_N (n mod 256).

(** Four sextets give three bytes; a tail of three gives two bytes, a
    tail of two gives one, the spare bits being discarded. *)
Fixpoint octets (vs : list N) : list ascii :=
  match vs with
  | a :: b :: c :: d :: rest =>
      let w := (a * 262144 + b * 4096 + c * 64 + d)%N in
      octet (w / 65536) :: octet (w / 256) :: octet w :: octets rest
  | [a; b; c] =>
      let w := (a * 4096 + b * 64 + c)%N in
      [octet (w / 1024); octet (w / 4)]
  | [a; b] => [octet ((a * 64 + b) / 16)]
  | _ => []
  end.

(** [atob(base64)]: the forgiving base64 decoding of the HTML standard;
    the result is a binary string, one character per byte. *)
Definition atob (base64 : string) : result string :=
  let cs := filter (fun c => isAsciiWhitespace c = false)
                   (list_ascii_of_string base64) in
  let cs := stripPadding cs in
  if (length cs mod 4 =? 1)%nat then Throw InvalidCharacterError
  else match sextets cs with
       | Some vs => Ok (string_of_list_ascii (octets vs))
       | None => Throw InvalidCharacterError
       end.

(** [s.charCodeAt(i)], [None] for the NaN of an index out of range. *)
Definition charCodeAt (s : string) (i : nat) : option N :=
  charCode <$> String.get i s.

(** Conversion of a number to an element of a [Uint8Array]. *)
Definition toUint8 (x : option N) : byte :=
  match x with
  | Some n => default x00 (Byte.of_N (n mod 256))
  | None => x00
  end.

(** [bytes[i] = v] on a [Uint8Array]. *)
Definition Uint8Array_set (bytes : Uint8Array) (i : nat) (v : byte) : Uint8Array :=
  if (i <? byteLength bytes)%nat
  then {| buffer := <[(byteOffset bytes + i)%nat := v]> (buffer bytes);
          byteOffset := byteOffset bytes;
          byteLength := byteLength bytes |}
  else bytes.

(** [decode(base64)] *)
Definition decode (base64 : string) : result Uint8Array :=
  let! binaryString := atob base64 in
  let len := String.length binaryString in
  let bytes := Uint8Array_of (replicate len x00) in
  Ok (for_upto (nat_to_Q len)
        (fun bytes i => Uint8Array_set bytes i (toUint8 (charCodeAt binaryString i)))
        bytes).

(* ------------------------------------------------------------------ *)
(** ** Audio generation *)

(** What [generateLeapAudio] reads of the service's answer: the rejection of
    the request, or
    [response.candidates?.[0]?.content?.parts?.[0]?.inlineData?.data],
    [None] when the chain ends in [undefined]. *)
Definition AudioResponse : Type := result (option string).

(** [generateLeapAudio(script, audioContext)], given the answer of
    [ai.models.generateContent] to the request built from [script]. *)
Definition generateLeapAudio (host : endianness)
    (response : AudioResponse) (audioContext : AudioContext)
  : result AudioBuffer :=
  let! inlineData := response in
  match inlineData with
  | None => Throw (Error "No audio generated")
  | Some base64Audio =>
      if falsy base64Audio then Throw (Error "No audio generated")
      else
        let! bytes := decode base64Audio in
        decodeAudioData host bytes audioContext
          24000 (* Gemini TTS sample rate *)
          1 (* Mono *)
  end.

(* ------------------------------------------------------------------ *)
(** ** The application state ([src/types.ts]) *)

Record ChartDataPoint : Type := {
  label : string;
  value : Q;
  unit : option string
}.

Record LeapManifest : Type := {
  summary : string;
  chartTitle : string;
  chartData : list ChartDataPoint;
  imagePrompt : string;
  audioScript : string;
  colors : list string
}.

Inductive Status : Type :=
  | idle | analyzing | generating_media | complete | error.

Record LeapState : Type := {
  status : Status;
  manifest : option LeapManifest;
  imageData : option string;         (* Base64 *)
  audioBuffer : option AudioBuffer;
  errorMessage : option string       (* the field [error] *)
}.

(** The three [useState] cells of [App]. *)
Record App : Type := {
  topic : string;
  showGate : bool;
  state : LeapState
}.

Definition initialApp : App :=
  {| topic := "";
     showGate := false;
     state := {| status := idle; manifest := None; imageData := None;
                 audioBuffer := None; errorMessage := None |} |}.

(** The collaborators [handleLeap] calls: the three functions imported
    from the service module, each a promise that settles one way or the
    other, and the construction of the audio context. *)
Record Services : Type := {
  generateManifest : string -> result LeapManifest;
  generateLeapImage : string -> result string;
  generateLeapAudioFor : string -> AudioContext -> result AudioBuffer;
  newAudioContext : result AudioContext
}.

Inductive Call : Type :=
  | CallGenerateManifest (topic : string)
  | CallNewAudioContext
  | CallGenerateLeapImage (prompt : string)
  | CallGenerateLeapAudio (script : string).

(** The outcome [Promise.allSettled] reports for one promise. *)
Inductive Settled (A : Type) : Type :=
  | fulfilled (value : A)
  | rejected (reason : JsError).
Arguments fulfilled {A} value.
Arguments rejected {A} reason.

Definition settle {A : Type} (r : result A) : Settled A :=
  match r with
  | Ok v => fulfilled v
  | Throw e => rejected e
  end.

Definition fulfilledValue {A : Type} (s : Settled A) : option A :=
  match s with
  | fulfilled v => Some v
  | rejected _ => None
  end.

Definition isRejected {A : Type} (s : Settled A) : bool :=
  match s with
  | fulfilled _ => false
  | rejected _ => true
  end.

Definition setState (f : LeapState -> LeapState) (app : App) : App :=
  {| topic := topic app; showGate := showGate app; state := f (state app) |}.

Definition partialFailureMessage : string :=
  "Partial system failure. Some media elements could not be synthesized.".

Definition criticalFailureMessage : string :=
  "CRITICAL FAILURE: Unable to bridge the quantum gap. Try a different topic.".

(** The [catch] block. *)
Definition handleLeap_catch (app : App) : App :=
  setState (fun prev =>
    {| status := error;
       manifest := manifest prev;
       imageData := imageData prev;
       audioBuffer := audioBuffer prev;
       errorMessage := Some criticalFailureMessage |}) app.

(** One run of [handleLeap], from the click to the last [setState]: the
    application it leaves and the collaborators it called, in order. *)
Definition handleLeap (svc : Services) (app : App) : App * list Call :=
  if falsy (trim (topic app)) then (app, [])
  else if includes (toLowerCase (topic app)) "aether"
          || includes (toLowerCase (topic app)) "event"
  then ({| topic := ""; showGate := true; state := state app |}, [])
  else
    (* Reset state *)
    let app := setState (fun _ =>
      {| status := analyzing; manifest := None; imageData := None;
         audioBuffer := None; errorMessage := None |}) app in
    match generateManifest svc (topic app) with
    | Throw _ => (handleLeap_catch app, [CallGenerateManifest (topic app)])
    | Ok manifest_ =>
        let app := setState (fun prev =>
          {| status := generating_media;
             manifest := Some manifest_;
             imageData := imageData prev;
             audioBuffer := audioBuffer prev;
             errorMessage := errorMessage prev |}) app in
        match newAudioContext svc with
        | Throw _ =>
            (handleLeap_catch app,
             [CallGenerateManifest (topic app); CallNewAudioContext])
        | Ok audioCtx =>
            let imgData := settle (generateLeapImage svc (imagePrompt manifest_)) in
            let audioBuf :=
              settle (generateLeapAudioFor svc (audioScript manifest_) audioCtx) in
            (setState (fun prev =>
               {| status := complete;
                  manifest := manifest prev;
                  imageData := fulfilledValue imgData;
                  audioBuffer := fulfilledValue audioBuf;
                  errorMessage :=
                    if isRejected imgData || isRejected audioBuf
                    then Some partialFailureMessage
                    else None |}) app,
             [CallGenerateManifest (topic app); CallNewAudioContext;
              CallGenerateLeapImage (imagePrompt manifest_);
              CallGenerateLeapAudio (audioScript manifest_)])
        end
    end.

(* ------------------------------------------------------------------ *)
(** ** Readings used in the statements *)

(** Channel [c], frame [i] holds the normalized sample [i * numChannels + c]. *)
Definition deinterleaved (samples : list Z) (numChannels frames : nat)
  : list (list float) :=
  (fun c =>
     (fun i => normalize (samples !! (i * numChannels + c)%nat)) <$> seq 0 frames)
  <$> seq 0 numChannels.

(** The channel counts and rates an implementation accepts. *)
Definition supports (ctx : AudioContext) (nChannels : nat) (rate : Z) : Prop :=
  (1 <= nChannels <= maxChannels ctx)%nat /\
  (minSampleRate ctx <= rate <= maxSampleRate ctx)%Z.

(** [buffer.getChannelData(c)[i]] *)
Definition sampleAt (b : AudioBuffer) (c i : nat) : option float :=
  channels b !! c ≫= fun channelData => channelData !! i.

(** The specification's reading of a byte pair: low byte first, the high
    byte taken as a signed 8-bit number. *)
Definition toSigned (b : Z) : Z := if (b <? 128)%Z then b else (b - 256)%Z.

Definition littleEndianSample (bs : list byte) (k : nat) : option Z :=
  lo ← bs !! (2 * k)%nat;
  hi ← bs !! (2 * k + 1)%nat;
  Some (byte_to_Z lo + 256 * toSigned (byte_to_Z hi))%Z.

(** The same with the high byte first. *)
Definition bigEndianSample (bs : list byte) (k : nat) : option Z :=
  hi ← bs !! (2 * k)%nat;
  lo ← bs !! (2 * k + 1)%nat;
  Some (byte_to_Z lo + 256 * toSigned (byte_to_Z hi))%Z.

(** The reading in the byte order of the host. *)
Definition hostSample (host : endianness) (bs : list byte) (k : nat) : option Z :=
  match host with
  | LittleEndian => littleEndianSample bs k
  | BigEndian => bigEndianSample bs k
  end.


(** A number that binary32 holds without rounding: a significand of at
    most 24 bits at an exponent in range. *)
Definition binary32_exact (q : Q) : Prop :=
  exists m e : Z,
    (Z.abs m < 2 ^ 24)%Z /\ (-149 <= e <= 104)%Z /\
    (q == inject_Z m * 2 ^ e)%Q.

(** The topic contains [sub] when letter case is ignored: some stretch of
    it reads [sub] once lower-cased. *)
Definition containsIgnoringCase (s sub : string) : Prop :=
  exists pre mid post : string,
    s = (pre ++ mid ++ post)%string /\ toLowerCase mid = sub.

(* ------------------------------------------------------------------ *)
(** ** The encoder of the round trip *)

(** Modelled from the spec: the encoder of the round trip is not in the
    repository.  It is the inverse of the normalization: the sample is
    multiplied by 32768 (exact in binary floating point) and quantized to
    the integer below. *)
Definition encodeSample (f : Q) : Z := Qfloor (f * 32768).

Definition byte_of_Z (z : Z) : byte := default x00 (Byte.of_N (Z.to_N z)).

(** Modelled from the spec: the two bytes a 16-bit store leaves in memory. *)
Definition int16_bytes (host : endianness) (s : Z) : list byte :=
  let u := (s mod 65536)%Z in
  let lo := byte_of_Z (u mod 256) in
  let hi := byte_of_Z (u / 256) in
  match host with
  | LittleEndian => [lo; hi]
  | BigEndian => [hi; lo]
  end.

(** Modelled from the spec: floats to interleaved 16-bit PCM bytes. *)
Definition encodePCM (host : endianness) (fs : list Q) : list byte :=
  flat_map (fun f => int16_bytes host (encodeSample f)) fs.

(* ------------------------------------------------------------------ *)
(** ** Sample inputs *)

(** Eight bytes: the little-endian samples 0, 16384, -32768, 32767. *)
Definition pcm_example : list byte :=
  [x00; x00; x00; x40; x00; x80; xff; x7f].

(** What the decoder makes of [pcm_example] as two channels. *)
Definition pcm_example_stereo : AudioBuffer :=
  {| sampleRate := 24000;
     numberOfChannels := 2;
     frameLength := 2;
     channels := [[Num (0 # 32768); Num (-32768 # 32768)];
                  [Num (16384 # 32768); Num (32767 # 32768)]] |}.

(** What the decoder makes of [pcm_example] as one channel. *)
Definition pcm_example_mono : AudioBuffer :=
  {| sampleRate := 24000;
     numberOfChannels := 1;
     frameLength := 4;
     channels := [[Num (0 # 32768); Num (16384 # 32768);
                   Num (-32768 # 32768); Num (32767 # 32768)]] |}.

(** [pcm_example] as one channel at 48000 Hz. *)
Definition pcm_example_mono_48000 : AudioBuffer :=
  {| sampleRate := 48000;
     numberOfChannels := 1;
     frameLength := 4;
     channels := channels pcm_example_mono |}.

Definition example_manifest : LeapManifest :=
  {| summary := "Regions of spacetime that nothing leaves.";
     chartTitle := "Mass in solar masses";
     chartData := [ {| label := "Cygnus X-1"; value := 21; unit := Some "M"%string |};
                    {| label := "Sagittarius A*"; value := 4300000; unit := None |} ];
     imagePrompt := "An accretion disk seen edge on";
     audioScript := "Did you know that time slows near a black hole?";
     colors := ["#000010"%string; "#ff8800"%string] |}.

(** Collaborators of one run: the analysis answers, the image task fails,
    the audio task decodes the base64 of [pcm_example]. *)
Definition example_services : Services :=
  {| generateManifest := fun _ => Ok example_manifest;
     generateLeapImage := fun _ => Throw (Error "No image generated");
     generateLeapAudioFor := fun _ audioContext =>
       generateLeapAudio LittleEndian (Ok (Some "AAAAQACA/38="%string)) audioContext;
     newAudioContext := Ok baselineContext |}.

Definition example_app (text : string) : App :=
  {| topic := text; showGate := false; state := state initialApp |}.

(* ------------------------------------------------------------------ *)
(** ** Image generation *)

Module Gemini.

(** The part of the service's answer that [generateLeapImage] reads.  Every
    level can be missing ([None] is [undefined]). *)
Record Blob : Type := { mimeType : option string; data : option string }.
Record Part : Type := { inlineData : option Blob }.
Record Content : Type := { parts : option (list Part) }.
Record Candidate : Type := { content : option Content }.
Record GenerateContentResponse : Type := { candidates : option (list Candidate) }.

(** [part.inlineData && part.inlineData.mimeType.startsWith('image/')]:
    calling [startsWith] on a missing [mimeType] is a TypeError. *)
Definition isImagePart (part : Part) : result bool :=
  match inlineData part with
  | None => Ok false
  | Some blob =>
      match mimeType blob with
      | None => Throw TypeError
      | Some mime => Ok (String.prefix "image/" mime)
      end
  end.

(** The inner loop; [Some v] is [return v], [None] is the end of the loop.
    The value returned is [part.inlineData.data], which can be [undefined]. *)
Fixpoint scanParts (ps : list Part) : result (option (option string)) :=
  match ps with
  | [] => Ok None
  | part :: rest =>
      let! hit := isImagePart part in
      if hit then Ok (Some (inlineData part ≫= data))
      else scanParts rest
  end.

(** The outer loop; [candidate.content.parts] of a candidate without
    content, and iterating over missing parts, are TypeErrors. *)
Fixpoint scanCandidates (cs : list Candidate) : result (option (option string)) :=
  match cs with
  | [] => Ok None
  | candidate :: rest =>
      match content candidate with
      | None => Throw TypeError
      | Some c =>
          match parts c with
          | None => Throw TypeError
          | Some ps =>
              let! found := scanParts ps in
              match found with
              | Some v => Ok (Some v)
              | None => scanCandidates rest
              end
          end
      end
  end.

(** [generateLeapImage(prompt)], given the answer of
    [ai.models.generateContent] to the request built from [prompt]. *)
Definition generateLeapImage (response : result GenerateContentResponse)
  : result (option string) :=
  let! r := response in
  let! found := scanCandidates (default [] (candidates r)) in
  match found with
  | Some v => Ok v
  | None => Throw (Error "No image generated")
  end.

End Gemini.

(* ------------------------------------------------------------------ *)
(** ** The controls of [App] *)

Definition busy (s : Status) : bool :=
  match s with
  | analyzing | generating_media => true
  | _ => false
  end.

(** [handleKeyDown(e)], [key] being [e.key]. *)
Definition handleKeyDown (svc : Services) (key : string) (app : App)
  : App * list Call :=
  if String.eqb key "Enter" && negb (busy (status (state app)))
  then handleLeap svc app
  else (app, []).

(** A click on the search button, which is disabled while a run is under
    way and while the topic is the empty string. *)
Definition clickLeap (svc : Services) (app : App) : App * list Call :=
  if busy (status (state app)) || falsy (topic app)
  then (app, [])
  else handleLeap svc app.

(** [setTopic(text)], from the input (disabled while a run is under way)
    or from a suggestion (shown in the idle state). *)
Definition typeTopic (text : string) (app : App) : App :=
  if busy (status (state app)) then app
  else {| topic := text; showGate := showGate app; state := state app |}.

Definition setShowGate (b : bool) (app : App) : App :=
  {| topic := topic app; showGate := b; state := state app |}.

(** What the user can do.  While the gate is shown, [App] renders the gate
    alone, and the only control left is the one that closes it. *)
Inductive Event : Type :=
  | TypeTopic (text : string)
  | PressKey (key : string) (svc : Services)
  | ClickLeap (svc : Services)
  | ClickProtocol72
  | CloseGate.

(** One event, a leap being taken to its last [setState].  (While a leap
    is under way the input and the button are disabled, so the only events
    that can fall into it are the two that touch [showGate] alone.) *)
Definition step (app : App) (e : Event) : App :=
  if showGate app then
    match e with
    | CloseGate => setShowGate false app
    | _ => app
    end
  else
    match e with
    | TypeTopic text => typeTopic text app
    | PressKey key svc => (handleKeyDown svc key app).1
    | ClickLeap svc => (clickLeap svc app).1
    | ClickProtocol72 => setShowGate true app
    | CloseGate => app
    end.

Definition run (events : list Event) (app : App) : App := foldl step app events.

(** Services whose audio task is the service module's [generateLeapAudio],
    the answer of the speech model depending on the script. *)
Definition servicesWithAudio (host : endianness)
    (manifestTask : string -> result LeapManifest)
    (imageTask : string -> result string)
    (speech : string -> AudioResponse)
    (context : result AudioContext) : Services :=
  {| generateManifest := manifestTask;
     generateLeapImage := imageTask;
     generateLeapAudioFor := fun script audioContext =>
       generateLeapAudio host (speech script) audioContext;
     newAudioContext := context |}.

(* ------------------------------------------------------------------ *)
(** ** The log of the gate ([src/components/AetherGate.tsx]) *)

(** [l.slice(-n)]: the last [n] elements, all of them when there are fewer. *)
Definition sliceFromEnd {A : Type} (n : nat) (l : list A) : list A :=
  drop (length l - n) l.

(** [addLog(msg)], as the update it passes to [setLog]. *)
Definition addLog (msg : string) (prev : list string) : list string :=
  sliceFromEnd 6 prev ++ [("> " ++ msg)%string].

(* ------------------------------------------------------------------ *)
(** ** Further readings used in the statements *)

(** A string of white space only. *)
Fixpoint blank (s : string) : bool :=
  match s with
  | String c s' => isWhiteSpace c && blank s'
  | EmptyString => true
  end.

(** The bytes of a binary string. *)
Definition binaryBytes (s : string) : list byte :=
  byte_of_ascii <$> list_ascii_of_string s.

(** The bytes of every 16-bit element exchanged. *)
Fixpoint swapPairs (bs : list byte) : list byte :=
  match bs with
  | b0 :: b1 :: rest => b1 :: b0 :: swapPairs rest
  | _ => bs
  end.

(** What the scan of [generateLeapImage] meets, in order: an image part
    with its data, a part that is no image, or something it cannot read. *)
Inductive Sighting : Type :=
  | Image (v : option string)
  | NoImage
  | Unreadable.

Definition sightPart (part : Gemini.Part) : Sighting :=
  match Gemini.inlineData part with
  | None => NoImage
  | Some blob =>
      match Gemini.mimeType blob with
      | None => Unreadable
      | Some mime =>
          if String.prefix "image/" mime then Image (Gemini.data blob) else NoImage
      end
  end.

Definition sightCandidate (candidate : Gemini.Candidate) : list Sighting :=
  match Gemini.content candidate ≫= Gemini.parts with
  | None => [Unreadable]
  | Some ps => sightPart <$> ps
  end.

Definition sightings (cs : list Gemini.Candidate) : list Sighting :=
  cs ≫= sightCandidate.

(** The first sighting that is not [NoImage] decides. *)
Fixpoint firstSighting (l : list Sighting) : result (option string) :=
  match l with
  | Image v :: _ => Ok v
  | Unreadable :: _ => Throw TypeError
  | NoImage :: rest => firstSighting rest
  | [] => Throw (Error "No image generated")
  end.


(** An event whose leap, if any, runs with the service module's audio
    task. *)
Definition usesGeminiAudio (e : Event) : Prop :=
  match e with
  | PressKey _ svc | ClickLeap svc =>
      exists host manifestTask imageTask speech context,
        svc = servicesWithAudio host manifestTask imageTask speech context
  | _ => True
  end.

(** A buffer as the speech of the program is: one channel at 24000 Hz, at
    least one frame, every sample a number in [-1, 1). *)
Definition monoSpeech (buf : AudioBuffer) : Prop :=
  sampleRate buf = 24000%Z /\
  numberOfChannels buf = 1%nat /\
  (1 <= frameLength buf)%nat /\
  forall c i x, sampleAt buf c i = Some x ->
    exists q, x = Num q /\ (-1 <= q)%Q /\ (q < 1)%Q.

(** Collaborators whose text analysis fails. *)
Definition failing_services : Services :=
  {| generateManifest := fun _ => Throw (Error "No text returned from Gemini");
     generateLeapImage := generateLeapImage example_services;
     generateLeapAudioFor := generateLeapAudioFor example_services;
     newAudioContext := Ok baselineContext |}.

(** The application after a complete run, with a new topic typed. *)
Definition completed_app (text : string) : App :=
  {| topic := text; showGate := false;
     state := {| status := complete; manifest := Some example_manifest;
                 imageData := Some "iVBORw0KGgo="%string;
                 audioBuffer := Some pcm_example_mono;
                 errorMessage := None |} |}.

(* ================================================================== *)
(** * Properties *)

(** Case analysis on the decisions of the goal. *)
Ltac decide_goal :=
  repeat match goal with
         | |- context [decide ?P] => destruct (decide P)
         end.

(** ** Loops *)

Lemma for_upto_nat {S : Type} (n : nat) (body : S -> nat -> S) (s : S) :
  for_upto (nat_to_Q n) body s = foldl body s (seq 0 n).
Proof.
  unfold for_upto, nat_to_Q. by rewrite Qceiling_Z, Nat2Z.id.
Qed.

(** The iterations of a loop with a fractional bound are the integers
    below the bound. *)
Lemma for_upto_iterations (bound : Q) (i : nat) :
  (0 <= bound)%Q ->
  (i < Z.to_nat (Qceiling bound))%nat <-> (nat_to_Q i < bound)%Q.
Proof.
  intros Hb. unfold nat_to_Q. split.
  - intros Hi.
    assert (Z.of_nat i <= Qceiling bound - 1)%Z as Hle by lia.
    rewrite Zle_Qle in Hle.
    eapply Qle_lt_trans; [exact Hle | apply Qceiling_lt].
  - intros Hi.
    assert (inject_Z (Z.of_nat i) < inject_Z (Qceiling bound))%Q as Hlt
      by (eapply Qlt_le_trans; [exact Hi | apply Qle_ceiling]).
    rewrite <- Zlt_Qlt in Hlt. lia.
Qed.

Lemma foldl_insert_length {A : Type} (f : nat -> A) (idx : list nat) (l : list A) :
  length (foldl (fun l i => <[i := f i]> l) l idx) = length l.
Proof.
  revert l. induction idx as [|i idx IH]; intros l; simpl; [done|].
  by rewrite IH, length_insert.
Qed.

(** A loop that stores [f i] at every index [i] below [m]. *)
Lemma foldl_insert_lookup {A : Type} (f : nat -> A) (m : nat) (l : list A) (j : nat) :
  foldl (fun l i => <[i := f i]> l) l (seq 0 m) !! j =
  if decide (j < m /\ j < length l)%nat then Some (f j) else l !! j.
Proof.
  induction m as [|m IH].
  - cbn [seq foldl]. decide_goal; [lia | done].
  - rewrite seq_S, foldl_snoc. cbn [Nat.add].
    set (l' := foldl _ l (seq 0 m)) in *.
    assert (length l' = length l) as Hlen by apply foldl_insert_length.
    destruct (decide (j = m)) as [->|Hne].
    + destruct (decide (m < length l)%nat) as [Hlt|Hge].
      * rewrite list_lookup_insert_eq by lia.
        decide_goal; [done | lia].
      * rewrite list_insert_ge by lia. rewrite IH.
        decide_goal; try lia; done.
    + rewrite list_lookup_insert_ne by done. rewrite IH.
      decide_goal; try lia; done.
Qed.

(** Filling a whole array: when the loop runs at least to the end of the
    array, every slot holds [f] of its index. *)
Lemma foldl_insert_all {A : Type} (f : nat -> A) (m : nat) (l : list A) :
  (length l <= m)%nat ->
  foldl (fun l i => <[i := f i]> l) l (seq 0 m) = f <$> seq 0 (length l).
Proof.
  intros Hm. apply list_eq. intros j.
  rewrite foldl_insert_lookup, list_lookup_fmap.
  destruct (decide (j < length l)%nat) as [Hj|Hj].
  - rewrite lookup_seq_lt by done. simpl. decide_goal; [done | lia].
  - rewrite lookup_seq_ge by lia. simpl.
    decide_goal; [lia|]. apply lookup_ge_None. lia.
Qed.

(** ** Stores into a buffer *)

Lemma setSample_loop (channel : nat) (g : nat -> float) (idx : list nat)
    (b : AudioBuffer) :
  let b' := foldl (fun b i => setSample b channel i (g i)) b idx in
  sampleRate b' = sampleRate b /\
  numberOfChannels b' = numberOfChannels b /\
  frameLength b' = frameLength b /\
  channels b' =
    alter (fun ch => foldl (fun l i => <[i := g i]> l) ch idx)
          channel (channels b).
Proof.
  revert b. induction idx as [|i idx IH]; intros b; simpl.
  - repeat split. by rewrite list_alter_id.
  - destruct (IH (setSample b channel i (g i))) as (Hr & Hn & Hf & Hc).
    repeat split; try done.
    rewrite Hc. simpl. by rewrite list_alter_alter_eq.
Qed.

(** The outer loop touches channel [c] in its [c]-th iteration only. *)
Lemma alter_loop_lookup {A : Type} (F : nat -> A -> A) (m : nat)
    (l : list A) (j : nat) :
  foldl (fun l c => alter (F c) c l) l (seq 0 m) !! j =
  if decide (j < m)%nat then F j <$> l !! j else l !! j.
Proof.
  induction m as [|m IH].
  - cbn [seq foldl]. decide_goal; [lia | done].
  - rewrite seq_S, foldl_snoc. cbn [Nat.add].
    destruct (decide (m = j)) as [->|Hne].
    + rewrite list_lookup_alter_eq, IH.
      decide_goal; try lia; done.
    + rewrite list_lookup_alter_ne by done. rewrite IH.
      decide_goal; try lia; done.
Qed.

Lemma channel_loop (F : AudioBuffer -> nat -> AudioBuffer)
    (G : nat -> list float -> list float) :
  (forall b c,
      sampleRate (F b c) = sampleRate b /\
      numberOfChannels (F b c) = numberOfChannels b /\
      frameLength (F b c) = frameLength b /\
      channels (F b c) = alter (G c) c (channels b)) ->
  forall (idx : list nat) (b : AudioBuffer),
    let b' := foldl F b idx in
    sampleRate b' = sampleRate b /\
    numberOfChannels b' = numberOfChannels b /\
    frameLength b' = frameLength b /\
    channels b' = foldl (fun l c => alter (G c) c l) (channels b) idx.
Proof.
  intros HF idx. induction idx as [|c idx IH]; intros b; simpl; [done|].
  destruct (HF b c) as (Hr & Hn & Hf & Hc).
  destruct (IH (F b c)) as (Hr' & Hn' & Hf' & Hc').
  repeat split; congruence.
Qed.

(** ** The 16-bit view *)

Lemma byte_to_Z_range (b : byte) : (0 <= byte_to_Z b < 256)%Z.
Proof.
  unfold byte_to_Z. pose proof (Byte.to_N_bounded b). lia.
Qed.

Lemma lor_shiftl_8 (a b : Z) :
  (0 <= a < 256)%Z -> (0 <= b)%Z ->
  Z.lor a (Z.shiftl b 8) = (a + 256 * b)%Z.
Proof.
  intros Ha Hb. rewrite <- Z.add_nocarry_lor.
  - rewrite Z.shiftl_mul_pow2 by lia. change (2 ^ 8)%Z with 256%Z. lia.
  - apply Z.bits_inj'. intros n Hn.
    rewrite Z.land_spec, Z.bits_0.
    destruct (Z.lt_ge_cases n 8) as [Hlt|Hge].
    + rewrite Z.shiftl_spec_low by done. apply andb_false_r.
    + destruct (Z.eq_dec a 0%Z) as [->|Hnz]; [by rewrite Z.bits_0|].
      rewrite (Z.bits_above_log2 a n); [done | lia |].
      assert (Z.log2 a < 8)%Z by (apply Z.log2_lt_pow2; lia). lia.
Qed.

Lemma toInt16_range (u : Z) :
  (0 <= u < 65536)%Z -> (-32768 <= toInt16 u <= 32767)%Z.
Proof.
  intros Hu. unfold toInt16. destruct (Z.ltb_spec u 32768); lia.
Qed.

Lemma int16_of_pair_range (host : endianness) (b0 b1 : byte) :
  (-32768 <= int16_of_pair host b0 b1 <= 32767)%Z.
Proof.
  pose proof (byte_to_Z_range b0). pose proof (byte_to_Z_range b1).
  destruct host; simpl; rewrite lor_shiftl_8 by lia; apply toInt16_range; lia.
Qed.

(** Induction over a list two elements at a time. *)
Lemma pair_induction {A : Type} (P : list A -> Prop) :
  P [] -> (forall a, P [a]) ->
  (forall a b l, P l -> P (a :: b :: l)) ->
  forall l, P l.
Proof.
  intros Hnil Hone Hstep l.
  assert (P l /\ forall a, P (a :: l)) as [H _]; [|exact H].
  induction l as [|b l [IH1 IH2]]; split; auto.
Qed.

Lemma int16_elements_length (host : endianness) (bs : list byte) :
  length (int16_elements host bs) = (length bs / 2)%nat.
Proof.
  induction bs as [| a | a b l IH] using pair_induction; [done | done |].
  cbn [int16_elements length]. rewrite IH.
  change (S (S (length l))) with (1 * 2 + length l)%nat.
  rewrite Nat.div_add_l by lia. lia.
Qed.

Lemma int16_elements_lookup (host : endianness) (bs : list byte) (k : nat) :
  int16_elements host bs !! k =
  match bs !! (2 * k)%nat, bs !! (2 * k + 1)%nat with
  | Some b0, Some b1 => Some (int16_of_pair host b0 b1)
  | _, _ => None
  end.
Proof.
  revert k. induction bs as [| a | a b l IH] using pair_induction; intros k.
  - done.
  - destruct k as [|k]; [done|].
    replace (2 * S k)%nat with (S (S (2 * k))) by lia. done.
  - destruct k as [|k]; [done|].
    replace (2 * S k)%nat with (S (S (2 * k))) by lia.
    cbn [int16_elements].
    replace (S (S (2 * k)) + 1)%nat with (S (S (2 * k + 1))) by lia.
    apply IH.
Qed.

Lemma int16_elements_range (host : endianness) (bs : list byte) (k : nat) (s : Z) :
  int16_elements host bs !! k = Some s -> (-32768 <= s <= 32767)%Z.
Proof.
  rewrite int16_elements_lookup.
  destruct (bs !! (2 * k)%nat), (bs !! (2 * k + 1)%nat); try done.
  intros [= <-]. apply int16_of_pair_range.
Qed.

(** ** The decoder in closed form *)

Lemma toUnsignedLong_quotient (n c : nat) :
  toUnsignedLong (nat_to_Q n / nat_to_Q c) = (n / c)%nat.
Proof.
  unfold toUnsignedLong, nat_to_Q.
  rewrite <- Zdiv_Qdiv, <- Nat2Z.inj_div. apply Nat2Z.id.
Qed.

Lemma floor_le_ceiling (x : Q) : (Z.to_nat (Qfloor x) <= Z.to_nat (Qceiling x))%nat.
Proof.
  pose proof (Qle_floor_ceiling x) as H. rewrite <- Zle_Qle in H. lia.
Qed.

Lemma decodeAudioData_closed_form (host : endianness) (data : Uint8Array)
    (ctx : AudioContext) (rate : Z) (numChannels : nat) :
  decodeAudioData host data ctx rate numChannels =
  let! samples := Int16Array_new host (buffer data) in
  let frames := (length samples / numChannels)%nat in
  let! _ := createBuffer ctx numChannels frames rate in
  Ok {| sampleRate := rate;
        numberOfChannels := numChannels;
        frameLength := frames;
        channels := deinterleaved samples numChannels frames |}.
Proof.
  unfold decodeAudioData.
  destruct (Int16Array_new host (buffer data)) as [samples|e]; [|done].
  cbn [bind]. rewrite toUnsignedLong_quotient.
  set (frames := (length samples / numChannels)%nat).
  set (frameCount := (nat_to_Q (length samples) / nat_to_Q numChannels)%Q).
  unfold createBuffer.
  destruct (_ || _); [done|]. cbn [bind]. f_equal.
  rewrite for_upto_nat. unfold for_upto.
  set (g := fun c i => normalize (samples !! (i * numChannels + c)%nat)).
  set (idx := seq 0 (Z.to_nat (Qceiling frameCount))).
  set (b0 := {| sampleRate := rate |}).
  destruct (channel_loop
              (fun b c => foldl (fun b i => setSample b c i (g c i)) b idx)
              (fun c ch => foldl (fun l i => <[i := g c i]> l) ch idx)
              (fun b c => setSample_loop c (g c) idx b)
              (seq 0 numChannels) b0) as (Hr & Hn & Hf & Hc).
  destruct (foldl _ b0 (seq 0 numChannels)) as [r n f chs].
  cbn in Hr, Hn, Hf, Hc. subst r n f. f_equal.
  rewrite Hc. apply list_eq. intros j.
  rewrite alter_loop_lookup. unfold deinterleaved.
  rewrite list_lookup_fmap.
  destruct (decide (j < numChannels)%nat) as [Hj|Hj].
  - rewrite lookup_replicate_2, lookup_seq_lt by done. cbn. f_equal.
    subst idx. rewrite foldl_insert_all; rewrite length_replicate; [done|].
    subst frames.
    rewrite <- (toUnsignedLong_quotient (length samples) numChannels).
    apply floor_le_ceiling.
  - rewrite lookup_seq_ge by lia.
    apply lookup_replicate_None. lia.
Qed.

Lemma Int16Array_new_ok (host : endianness) (bs : list byte) :
  Nat.even (length bs) = true ->
  Int16Array_new host bs = Ok (int16_elements host bs).
Proof. unfold Int16Array_new. by intros ->. Qed.

Lemma Int16Array_new_odd (host : endianness) (bs : list byte) :
  Nat.even (length bs) = false ->
  Int16Array_new host bs = Throw RangeError.
Proof. unfold Int16Array_new. by intros ->. Qed.

Lemma createBuffer_ok (ctx : AudioContext) (nChannels len : nat) (rate : Z) :
  supports ctx nChannels rate -> (1 <= len)%nat ->
  createBuffer ctx nChannels len rate =
  Ok {| sampleRate := rate; numberOfChannels := nChannels; frameLength := len;
        channels := replicate nChannels (replicate len (Num 0)) |}.
Proof.
  intros [[Hc1 Hc2] [Hr1 Hr2]] Hl. unfold createBuffer.
  destruct (Nat.eqb_spec nChannels 0); [lia|].
  destruct (Nat.ltb_spec (maxChannels ctx) nChannels); [lia|].
  destruct (Nat.eqb_spec len 0); [lia|].
  destruct (Z.ltb_spec rate (minSampleRate ctx)); [lia|].
  destruct (Z.ltb_spec (maxSampleRate ctx) rate); [lia|].
  done.
Qed.

Lemma createBuffer_inv (ctx : AudioContext) (nChannels len : nat) (rate : Z)
    (b : AudioBuffer) :
  createBuffer ctx nChannels len rate = Ok b ->
  supports ctx nChannels rate /\ (1 <= len)%nat.
Proof.
  unfold createBuffer, supports.
  destruct (Nat.eqb_spec nChannels 0); [done|].
  destruct (Nat.ltb_spec (maxChannels ctx) nChannels); [done|].
  destruct (Nat.eqb_spec len 0); [done|].
  destruct (Z.ltb_spec rate (minSampleRate ctx)); [done|].
  destruct (Z.ltb_spec (maxSampleRate ctx) rate); [done|].
  intros _. lia.
Qed.

Lemma deinterleaved_lookup (samples : list Z) (numChannels frames c i : nat) :
  (c < numChannels)%nat -> (i < frames)%nat ->
  deinterleaved samples numChannels frames !! c ≫= (fun ch => ch !! i) =
  Some (normalize (samples !! (i * numChannels + c)%nat)).
Proof.
  intros Hc Hi. unfold deinterleaved.
  rewrite list_lookup_fmap, lookup_seq_lt by done. cbn.
  by rewrite list_lookup_fmap, lookup_seq_lt.
Qed.

(** ** Sample values *)

Lemma toInt16_bytes (lo hi : Z) :
  (0 <= lo < 256)%Z -> (0 <= hi < 256)%Z ->
  toInt16 (lo + 256 * hi) = (lo + 256 * toSigned hi)%Z.
Proof.
  intros Hlo Hhi. unfold toInt16, toSigned.
  destruct (Z.ltb_spec (lo + 256 * hi) 32768), (Z.ltb_spec hi 128); lia.
Qed.

Lemma int16_of_pair_little (b0 b1 : byte) :
  int16_of_pair LittleEndian b0 b1 =
  (byte_to_Z b0 + 256 * toSigned (byte_to_Z b1))%Z.
Proof.
  pose proof (byte_to_Z_range b0). pose proof (byte_to_Z_range b1).
  cbn [int16_of_pair]. rewrite lor_shiftl_8 by lia. by apply toInt16_bytes.
Qed.

Lemma int16_of_pair_big (b0 b1 : byte) :
  int16_of_pair BigEndian b0 b1 =
  (byte_to_Z b1 + 256 * toSigned (byte_to_Z b0))%Z.
Proof.
  pose proof (byte_to_Z_range b0). pose proof (byte_to_Z_range b1).
  cbn [int16_of_pair]. rewrite lor_shiftl_8 by lia. by apply toInt16_bytes.
Qed.

Lemma int16_elements_little (bs : list byte) (k : nat) :
  (2 * k + 1 < length bs)%nat ->
  int16_elements LittleEndian bs !! k = littleEndianSample bs k /\
  is_Some (littleEndianSample bs k).
Proof.
  intros Hk. rewrite int16_elements_lookup. unfold littleEndianSample.
  destruct (lookup_lt_is_Some_2 bs (2 * k)%nat) as [b0 ->]; [lia|].
  destruct (lookup_lt_is_Some_2 bs (2 * k + 1)%nat) as [b1 ->]; [lia|].
  cbv beta iota. rewrite int16_of_pair_little. split; [done | by eexists].
Qed.

Lemma int16_elements_big (bs : list byte) (k : nat) :
  (2 * k + 1 < length bs)%nat ->
  int16_elements BigEndian bs !! k = bigEndianSample bs k.
Proof.
  intros Hk. rewrite int16_elements_lookup. unfold bigEndianSample.
  destruct (lookup_lt_is_Some_2 bs (2 * k)%nat) as [b0 ->]; [lia|].
  destruct (lookup_lt_is_Some_2 bs (2 * k + 1)%nat) as [b1 ->]; [lia|].
  cbv beta iota. by rewrite int16_of_pair_big.
Qed.

Lemma normalize_bounds (s : Z) :
  (-32768 <= s <= 32767)%Z ->
  (-1 <= inject_Z s / 32768)%Q /\ (inject_Z s / 32768 < 1)%Q.
Proof.
  intros Hs. unfold Qle, Qlt, Qdiv, Qmult, Qinv, inject_Z. simpl. lia.
Qed.

Lemma normalize_exact (s : Z) :
  (-32768 <= s <= 32767)%Z -> binary32_exact (inject_Z s / 32768).
Proof.
  intros Hs. exists s, (-15)%Z. repeat split; lia.
Qed.

Lemma even_length_half (bs : list byte) :
  Nat.even (length bs) = true -> length bs = (2 * (length bs / 2))%nat.
Proof.
  intros He. apply Nat.even_spec in He as [m Hm].
  rewrite Hm, (Nat.mul_comm 2 m), Nat.div_mul by lia. lia.
Qed.

Lemma interleaved_index (numChannels frames c i : nat) :
  (c < numChannels)%nat -> (i < frames)%nat ->
  (i * numChannels + c < frames * numChannels)%nat.
Proof. intros Hc Hi. nia. Qed.

Lemma decodeAudioData_even (host : endianness) (bs : list byte)
    (ctx : AudioContext) (rate : Z) (numChannels : nat) :
  Nat.even (length bs) = true ->
  decodeAudioData host (Uint8Array_of bs) ctx rate numChannels =
  let samples := int16_elements host bs in
  let frames := (length bs / 2 / numChannels)%nat in
  let! _ := createBuffer ctx numChannels frames rate in
  Ok {| sampleRate := rate;
        numberOfChannels := numChannels;
        frameLength := frames;
        channels := deinterleaved samples numChannels frames |}.
Proof.
  intros He. rewrite decodeAudioData_closed_form. cbn [buffer Uint8Array_of].
  rewrite Int16Array_new_ok by done. cbn [bind].
  by rewrite int16_elements_length.
Qed.

Lemma decodeAudioData_inv (host : endianness) (data : Uint8Array)
    (ctx : AudioContext) (rate : Z) (numChannels : nat) (buf : AudioBuffer) :
  decodeAudioData host data ctx rate numChannels = Ok buf ->
  let samples := int16_elements host (buffer data) in
  let frames := (length samples / numChannels)%nat in
  Nat.even (length (buffer data)) = true /\
  supports ctx numChannels rate /\ (1 <= frames)%nat /\
  buf = {| sampleRate := rate;
           numberOfChannels := numChannels;
           frameLength := frames;
           channels := deinterleaved samples numChannels frames |}.
Proof.
  rewrite decodeAudioData_closed_form. unfold Int16Array_new.
  destruct (Nat.even (length (buffer data))); [|done]. cbn [bind].
  destruct (createBuffer _ _ _ _) as [b0|e] eqn:Hcreate; [|done].
  apply createBuffer_inv in Hcreate as [Hs Hf]. cbn [bind].
  intros [= <-]. done.
Qed.

(** ** The model at work *)

Example decode_base64 :
  decode "AAAAQACA/38=" = Ok (Uint8Array_of pcm_example).
Proof. reflexivity. Qed.

Example atob_rejects_stray_padding :
  atob "SGVsb G8gd29yb===" = Throw InvalidCharacterError.
Proof. reflexivity. Qed.

Example decodeAudioData_mono :
  decodeAudioData LittleEndian (Uint8Array_of pcm_example) baselineContext 24000 1
  = Ok pcm_example_mono.
Proof. reflexivity. Qed.

Example decodeAudioData_stereo :
  decodeAudioData LittleEndian (Uint8Array_of pcm_example) baselineContext 24000 2
  = Ok pcm_example_stereo.
Proof. reflexivity. Qed.

(** Four samples for three channels: [frameCount] is 4/3, the buffer has one
    frame, and the second pass of the inner loop stores nothing. *)
Example decodeAudioData_three_channels :
  decodeAudioData LittleEndian (Uint8Array_of pcm_example) baselineContext 24000 3
  = Ok {| sampleRate := 24000; numberOfChannels := 3; frameLength := 1;
          channels := [[Num (0 # 32768)]; [Num (16384 # 32768)];
                       [Num (-32768 # 32768)]] |}.
Proof. reflexivity. Qed.

Example decodeAudioData_empty :
  decodeAudioData LittleEndian (Uint8Array_of []) baselineContext 24000 1
  = Throw NotSupportedError.
Proof. reflexivity. Qed.

Example handleLeap_blank_topic :
  handleLeap example_services (example_app "  ") = (example_app "  ", []).
Proof. reflexivity. Qed.

Example handleLeap_calls :
  (handleLeap example_services (example_app "Black Holes")).2 =
  [CallGenerateManifest "Black Holes"; CallNewAudioContext;
   CallGenerateLeapImage "An accretion disk seen edge on";
   CallGenerateLeapAudio "Did you know that time slows near a black hole?"].
Proof. reflexivity. Qed.

(** ** The decoder *)

Lemma int16_elements_host (host : endianness) (bs : list byte) (k : nat) :
  (2 * k + 1 < length bs)%nat ->
  int16_elements host bs !! k = hostSample host bs k /\
  is_Some (hostSample host bs k).
Proof.
  intros Hk. destruct host; cbn [hostSample].
  - by apply int16_elements_little.
  - rewrite <- int16_elements_big by done. split; [done|].
    apply lookup_lt_is_Some_2. rewrite int16_elements_length.
    apply Nat.div_le_lower_bound; lia.
Qed.

(** C1, as stated, fails: the samples are read in the byte order of the
    host, not low byte first on every host.  On a big-endian host the two
    bytes 01 00, one channel, decode to 256/32768, while the little-endian
    sample is 1. *)
Lemma decodeAudioData_little_endian_counterexample :
  length [x01; x00] = (2 * 1)%nat /\
  (1 mod 1 = 0)%nat /\
  littleEndianSample [x01; x00] (0 * 1 + 0) = Some 1%Z /\
  decodeAudioData BigEndian (Uint8Array_of [x01; x00]) baselineContext 24000 1 =
    Ok {| sampleRate := 24000; numberOfChannels := 1; frameLength := 1;
          channels := [[Num (256 # 32768)]] |} /\
  sampleAt {| sampleRate := 24000; numberOfChannels := 1; frameLength := 1;
              channels := [[Num (256 # 32768)]] |} 0 0 = Some (Num (256 # 32768)) /\
  ~ (256 # 32768 == inject_Z 1 / 32768)%Q.
Proof. repeat split. discriminate. Qed.

(** C1, amended.  On any host, for every byte input of [n] 16-bit samples
    with [n] divisible by the channel count, the buffer the decoder returns
    holds at channel [c], frame [i] the sample [i * numChannels + c],
    read in the byte order of the host (low byte first on a little-endian
    host, high byte first on a big-endian one), divided by 32768, for every
    channel below the channel count and every frame below
    [n / numChannels]; and the decoder does return a buffer when the input
    is not empty and the audio context supports the channel count and the
    rate. *)
Theorem decodeAudioData_deinterleaves (host : endianness) (ctx : AudioContext)
    (bs : list byte) (rate : Z) (numChannels n : nat) :
  length bs = (2 * n)%nat ->
  (1 <= numChannels)%nat ->
  (n mod numChannels = 0)%nat ->
  (forall buf,
      decodeAudioData host (Uint8Array_of bs) ctx rate numChannels = Ok buf ->
      numberOfChannels buf = numChannels /\
      frameLength buf = (n / numChannels)%nat /\
      forall c i, (c < numChannels)%nat -> (i < n / numChannels)%nat ->
        exists s,
          hostSample host bs (i * numChannels + c) = Some s /\
          sampleAt buf c i = Some (Num (inject_Z s / 32768))) /\
  (supports ctx numChannels rate -> (1 <= n)%nat ->
   is_ok (decodeAudioData host (Uint8Array_of bs) ctx rate numChannels) = true).
Proof.
  intros Hlen Hcc Hdiv.
  assert (Nat.even (length bs) = true) as He.
  { rewrite Hlen. apply Nat.even_spec. by exists n. }
  assert (length bs / 2 = n)%nat as Hn.
  { rewrite Hlen, (Nat.mul_comm 2 n). apply Nat.div_mul. lia. }
  rewrite decodeAudioData_even by done. cbn zeta. rewrite Hn.
  split.
  - intros buf Hbuf.
    destruct (createBuffer _ _ _ _) as [b0|e]; [|done].
    cbn [bind] in Hbuf. injection Hbuf as <-. cbn [numberOfChannels frameLength].
    repeat split. intros c i Hc Hi.
    assert (i * numChannels + c < n)%nat as Hidx.
    { pose proof (interleaved_index numChannels (n / numChannels) c i Hc Hi).
      pose proof (Nat.Div0.mul_div_le n numChannels). lia. }
    destruct (int16_elements_host host bs (i * numChannels + c)) as [Hv [s Hs]]; [lia|].
    exists s. split; [done|].
    unfold sampleAt. cbn [channels].
    rewrite deinterleaved_lookup by done.
    by rewrite Hv, Hs.
  - intros Hsup Hn1.
    assert (1 <= n / numChannels)%nat as Hframes.
    { apply Nat.Div0.div_exact in Hdiv.
      destruct (n / numChannels)%nat; lia. }
    by rewrite createBuffer_ok.
Qed.

Lemma decodeAudioData_deinterleaves_witness :
  exists s,
    hostSample LittleEndian pcm_example (1 * 2 + 1) = Some s /\
    sampleAt pcm_example_stereo 1 1 = Some (Num (inject_Z s / 32768)).
Proof.
  destruct (decodeAudioData_deinterleaves LittleEndian baselineContext
              pcm_example 24000 2 4
              eq_refl (le_S 1 1 (le_n 1)) eq_refl) as [Hvalues _].
  destruct (Hvalues pcm_example_stereo eq_refl) as (_ & _ & Hsamples).
  apply (Hsamples 1%nat 1%nat); repeat constructor.
Defined.

(** Every slot of a returned buffer holds a 16-bit sample over 32768. *)
Lemma decodeAudioData_sample_origin (host : endianness) (data : Uint8Array)
    (ctx : AudioContext) (rate : Z) (numChannels : nat) (buf : AudioBuffer)
    (c i : nat) (x : float) :
  decodeAudioData host data ctx rate numChannels = Ok buf ->
  sampleAt buf c i = Some x ->
  exists s, (-32768 <= s <= 32767)%Z /\ x = Num (inject_Z s / 32768).
Proof.
  intros Hbuf Hx.
  apply decodeAudioData_inv in Hbuf as (_ & _ & _ & ->).
  set (samples := int16_elements host (buffer data)) in *.
  set (frames := (length samples / numChannels)%nat) in *.
  unfold sampleAt, deinterleaved in Hx. cbn [channels] in Hx.
  rewrite list_lookup_fmap in Hx.
  destruct (seq 0 numChannels !! c) as [c'|] eqn:Hc; [|done].
  apply lookup_seq in Hc as [-> Hc]. cbn in Hx.
  rewrite list_lookup_fmap in Hx.
  destruct (seq 0 frames !! i) as [i'|] eqn:Hi; [|done].
  apply lookup_seq in Hi as [-> Hi]. cbn in Hx. injection Hx as <-.
  assert (i * numChannels + c < length samples)%nat as Hidx.
  { pose proof (interleaved_index numChannels frames c i Hc Hi).
    pose proof (Nat.Div0.mul_div_le (length samples) numChannels).
    subst frames. lia. }
  destruct (lookup_lt_is_Some_2 samples _ Hidx) as [s Hs].
  rewrite Hs. exists s. split; [|done]. by eapply int16_elements_range.
Qed.

(** The store into the [Float32Array] rounds nothing. *)
Lemma decodeAudioData_samples_exact (host : endianness) (data : Uint8Array)
    (ctx : AudioContext) (rate : Z) (numChannels : nat) (buf : AudioBuffer)
    (c i : nat) (x : float) :
  decodeAudioData host data ctx rate numChannels = Ok buf ->
  sampleAt buf c i = Some x ->
  exists q, x = Num q /\ binary32_exact q.
Proof.
  intros Hbuf Hx.
  destruct (decodeAudioData_sample_origin _ _ _ _ _ _ _ _ _ Hbuf Hx) as (s & Hs & ->).
  eexists. split; [done|]. by apply normalize_exact.
Qed.

(** C5. Every sample of every channel of a buffer the decoder returns is a
    number (never NaN) that is at least -1 and strictly below 1. *)
Theorem decodeAudioData_sample_range (host : endianness) (data : Uint8Array)
    (ctx : AudioContext) (rate : Z) (numChannels : nat) (buf : AudioBuffer) :
  decodeAudioData host data ctx rate numChannels = Ok buf ->
  forall (c i : nat) (x : float),
    sampleAt buf c i = Some x ->
    exists q, x = Num q /\ (-1 <= q)%Q /\ (q < 1)%Q.
Proof.
  intros Hbuf c i x Hx.
  destruct (decodeAudioData_sample_origin _ _ _ _ _ _ _ _ _ Hbuf Hx) as (s & Hs & ->).
  eexists. split; [done|]. by apply normalize_bounds.
Qed.

Lemma decodeAudioData_sample_range_witness :
  exists q, Num (-32768 # 32768) = Num q /\ (-1 <= q)%Q /\ (q < 1)%Q.
Proof.
  apply (decodeAudioData_sample_range LittleEndian (Uint8Array_of pcm_example)
           baselineContext 24000 1 pcm_example_mono eq_refl 0 2 _ eq_refl).
Defined.

(** C2, as stated, fails.  Three bytes (one sample and an odd trailing
    byte) make the [Int16Array] constructor throw a RangeError: nothing is
    truncated.  Two bytes for two channels hold no whole frame, and
    [createBuffer] refuses a buffer of length 0. *)
Lemma decodeAudioData_odd_length_counterexample :
  ((length [x00; x01; x02] mod (2 * 1) <> 0)%nat /\
   decodeAudioData LittleEndian (Uint8Array_of [x00; x01; x02])
     baselineContext 24000 1 = Throw RangeError) /\
  ((length [x00; x01] mod (2 * 2) <> 0)%nat /\
   decodeAudioData LittleEndian (Uint8Array_of [x00; x01])
     baselineContext 24000 2 = Throw NotSupportedError).
Proof. repeat split; cbn; lia. Qed.

(** C2, amended.  For a byte input whose length is not divisible by
    [2 * numChannels]:
    - when the length is even, the context supports the channel count and
      the rate, and the input holds at least one whole frame, the decoder
      throws nothing and returns a buffer of
      [floor((byteLength / 2) / numChannels)] frames whose channel [c],
      frame [i] is sample [i * numChannels + c]; the samples after the last
      whole frame appear nowhere;
    - when the length is even and the input holds no whole frame,
      [createBuffer] throws a NotSupportedError;
    - when the length is odd the [Int16Array] constructor throws a
      RangeError. *)
Theorem decodeAudioData_truncates (host : endianness) (ctx : AudioContext)
    (bs : list byte) (rate : Z) (numChannels : nat) :
  (length bs mod (2 * numChannels) <> 0)%nat ->
  (Nat.even (length bs) = true ->
   supports ctx numChannels rate ->
   (1 <= length bs / 2 / numChannels)%nat ->
   exists buf,
     decodeAudioData host (Uint8Array_of bs) ctx rate numChannels = Ok buf /\
     numberOfChannels buf = numChannels /\
     frameLength buf = (length bs / 2 / numChannels)%nat /\
     channels buf =
       deinterleaved (take (length bs / 2 / numChannels * numChannels)
                           (int16_elements host bs))
                     numChannels (length bs / 2 / numChannels)) /\
  (Nat.even (length bs) = true ->
   (length bs / 2 / numChannels = 0)%nat ->
   decodeAudioData host (Uint8Array_of bs) ctx rate numChannels =
     Throw NotSupportedError) /\
  (Nat.even (length bs) = false ->
   decodeAudioData host (Uint8Array_of bs) ctx rate numChannels = Throw RangeError).
Proof.
  intros _. split; [|split].
  - intros He Hsup Hframes. rewrite decodeAudioData_even by done. cbn zeta.
    rewrite createBuffer_ok by done. cbn [bind].
    eexists. split; [done|]. cbn [numberOfChannels frameLength channels].
    repeat split.
    set (frames := (length bs / 2 / numChannels)%nat).
    unfold deinterleaved.
    apply list_fmap_ext. intros k c Hc. apply lookup_seq in Hc as [-> Hc].
    apply list_fmap_ext. intros k' i Hi. apply lookup_seq in Hi as [-> Hi].
    cbn [Nat.add]. f_equal. symmetry. apply lookup_take_lt.
    by apply interleaved_index.
  - intros He Hzero. rewrite decodeAudioData_even by done. cbn zeta.
    rewrite Hzero. unfold createBuffer. cbn [Nat.eqb].
    by rewrite !orb_true_r.
  - intros Ho. unfold decodeAudioData. cbn [buffer Uint8Array_of].
    by rewrite Int16Array_new_odd.
Qed.

Lemma decodeAudioData_truncates_witness :
  exists buf,
    decodeAudioData LittleEndian (Uint8Array_of pcm_example)
      baselineContext 24000 3 = Ok buf /\
    numberOfChannels buf = 3%nat /\
    frameLength buf = (length pcm_example / 2 / 3)%nat /\
    channels buf =
      deinterleaved (take (length pcm_example / 2 / 3 * 3)
                          (int16_elements LittleEndian pcm_example))
                    3 (length pcm_example / 2 / 3).
Proof.
  destruct (decodeAudioData_truncates LittleEndian baselineContext
              pcm_example 24000 3) as [Htruncated _].
  - vm_compute. discriminate.
  - apply Htruncated.
    + reflexivity.
    + unfold supports. cbn. lia.
    + vm_compute. constructor.
Defined.

(** C3, as stated, fails: the view follows the host.  On a big-endian host
    the bytes 01 00 are the sample 256; read low byte first they are 1, which
    is what a little-endian host finds. *)
Lemma Int16Array_host_order_counterexample :
  Nat.even (length [x01; x00]) = true /\
  littleEndianSample [x01; x00] 0 = Some 1%Z /\
  Int16Array_new LittleEndian [x01; x00] = Ok [1%Z] /\
  Int16Array_new BigEndian [x01; x00] = Ok [256%Z] /\
  decodeAudioData BigEndian (Uint8Array_of [x01; x00]) baselineContext 24000 1 =
    Ok {| sampleRate := 24000; numberOfChannels := 1; frameLength := 1;
          channels := [[Num (256 # 32768)]] |}.
Proof. repeat split. Qed.

(** C3, amended.  For every even-length byte input the decoder views the
    bytes as [byteLength / 2] signed 16-bit integers in the byte order of
    the host: on a little-endian host sample [k] is
    [bytes[2k] + 256 * toSigned(bytes[2k+1])], low byte first; on a
    big-endian host it is [bytes[2k+1] + 256 * toSigned(bytes[2k])]. *)
Theorem Int16Array_host_order (bs : list byte) :
  Nat.even (length bs) = true ->
  (exists dataInt16,
      Int16Array_new LittleEndian bs = Ok dataInt16 /\
      length dataInt16 = (length bs / 2)%nat /\
      forall k, (k < length bs / 2)%nat ->
        is_Some (dataInt16 !! k) /\ dataInt16 !! k = littleEndianSample bs k) /\
  (exists dataInt16,
      Int16Array_new BigEndian bs = Ok dataInt16 /\
      length dataInt16 = (length bs / 2)%nat /\
      forall k, (k < length bs / 2)%nat ->
        is_Some (dataInt16 !! k) /\ dataInt16 !! k = bigEndianSample bs k).
Proof.
  intros He. pose proof (even_length_half bs He) as Hhalf.
  split; eexists; (split; [by apply Int16Array_new_ok|]);
    (split; [apply int16_elements_length|]); intros k Hk.
  - destruct (int16_elements_little bs k) as [-> Hsome]; [lia|]. done.
  - split; [|apply int16_elements_big; lia].
    apply lookup_lt_is_Some_2. rewrite int16_elements_length. lia.
Qed.

Lemma Int16Array_host_order_witness :
  (exists dataInt16,
      Int16Array_new LittleEndian pcm_example = Ok dataInt16 /\
      length dataInt16 = (length pcm_example / 2)%nat /\
      forall k, (k < length pcm_example / 2)%nat ->
        is_Some (dataInt16 !! k) /\
        dataInt16 !! k = littleEndianSample pcm_example k) /\
  (exists dataInt16,
      Int16Array_new BigEndian pcm_example = Ok dataInt16 /\
      length dataInt16 = (length pcm_example / 2)%nat /\
      forall k, (k < length pcm_example / 2)%nat ->
        is_Some (dataInt16 !! k) /\
        dataInt16 !! k = bigEndianSample pcm_example k).
Proof. apply (Int16Array_host_order pcm_example). reflexivity. Defined.



(** C7. The sample rate is carried into the buffer and touches nothing
    else: two runs on the same bytes and channel count at two rates, when
    both return, return the same channel data, frame count and channel
    count, each buffer with the rate of its run; and when one run returns,
    the other returns too for any rate the context supports. *)
Theorem decodeAudioData_sampleRate_metadata (host : endianness)
    (data : Uint8Array) (ctx : AudioContext) (numChannels : nat)
    (rate1 rate2 : Z) (buf1 : AudioBuffer) :
  decodeAudioData host data ctx rate1 numChannels = Ok buf1 ->
  sampleRate buf1 = rate1 /\
  (forall buf2,
      decodeAudioData host data ctx rate2 numChannels = Ok buf2 ->
      sampleRate buf2 = rate2 /\
      channels buf2 = channels buf1 /\
      frameLength buf2 = frameLength buf1 /\
      numberOfChannels buf2 = numberOfChannels buf1) /\
  ((minSampleRate ctx <= rate2 <= maxSampleRate ctx)%Z ->
   is_ok (decodeAudioData host data ctx rate2 numChannels) = true).
Proof.
  intros H1. apply decodeAudioData_inv in H1 as (He & [Hch _] & Hf & ->).
  split; [done|]. split.
  - intros buf2 H2. by apply decodeAudioData_inv in H2 as (_ & _ & _ & ->).
  - intros Hrate. rewrite decodeAudioData_closed_form.
    rewrite Int16Array_new_ok by done. cbn [bind].
    by rewrite createBuffer_ok.
Qed.

Lemma decodeAudioData_sampleRate_metadata_witness :
  sampleRate pcm_example_mono = 24000%Z /\
  (sampleRate pcm_example_mono_48000 = 48000%Z /\
   channels pcm_example_mono_48000 = channels pcm_example_mono /\
   frameLength pcm_example_mono_48000 = frameLength pcm_example_mono /\
   numberOfChannels pcm_example_mono_48000 = numberOfChannels pcm_example_mono) /\
  is_ok (decodeAudioData LittleEndian (Uint8Array_of pcm_example)
           baselineContext 48000 1) = true.
Proof.
  destruct (decodeAudioData_sampleRate_metadata LittleEndian
              (Uint8Array_of pcm_example) baselineContext 1 24000 48000
              pcm_example_mono eq_refl) as (Hrate & Hsame & Hreturns).
  split; [exact Hrate|]. split.
  - exact (Hsame pcm_example_mono_48000 eq_refl).
  - apply Hreturns. cbn. lia.
Defined.

(** ** Round trip *)

Lemma byte_to_Z_of_Z (z : Z) : (0 <= z < 256)%Z -> byte_to_Z (byte_of_Z z) = z.
Proof.
  intros Hz. unfold byte_to_Z, byte_of_Z.
  destruct (Byte.of_N (Z.to_N z)) as [b|] eqn:Hb.
  - apply Byte.to_of_N in Hb. cbn. lia.
  - apply Byte.of_N_None_iff in Hb. lia.
Qed.

Lemma int16_elements_bytes (host : endianness) (s : Z) (rest : list byte) :
  (-32768 <= s <= 32767)%Z ->
  int16_elements host (int16_bytes host s ++ rest) =
  s :: int16_elements host rest.
Proof.
  intros Hs. unfold int16_bytes.
  set (u := (s mod 65536)%Z).
  assert (0 <= u < 65536)%Z as Hu by (apply Z.mod_pos_bound; lia).
  assert (0 <= u mod 256 < 256)%Z as Hlo by (apply Z.mod_pos_bound; lia).
  assert (0 <= u / 256 < 256)%Z as Hhi
    by (split; [apply Z.div_pos; lia | apply Z.div_lt_upper_bound; lia]).
  assert (u mod 256 + 256 * (u / 256) = u)%Z as Hsum
    by (pose proof (Z.div_mod u 256); lia).
  assert (toInt16 u = s) as Hback.
  { unfold toInt16. subst u.
    destruct (Z.ltb_spec (s mod 65536) 32768) as [Hlt|Hge].
    - destruct (Z.neg_nonneg_cases s) as [Hneg|Hpos].
      + replace s with (s + 65536 - 1 * 65536)%Z in Hlt at 1 by lia.
        rewrite Zminus_mod, Z_mod_mult, Z.sub_0_r, Z.mod_mod in Hlt by lia.
        rewrite Z.mod_small in Hlt by lia. lia.
      + apply Z.mod_small. lia.
    - destruct (Z.neg_nonneg_cases s) as [Hneg|Hpos].
      + replace s with (s + 65536 - 1 * 65536)%Z at 1 by lia.
        rewrite Zminus_mod, Z_mod_mult, Z.sub_0_r, Z.mod_mod by lia.
        rewrite Z.mod_small by lia. lia.
      + rewrite Z.mod_small in Hge by lia. lia. }
  destruct host; cbn [app int16_elements int16_of_pair]; f_equal;
    rewrite !byte_to_Z_of_Z by done;
    rewrite lor_shiftl_8 by lia; by rewrite Hsum.
Qed.

Lemma encodeSample_range (f : Q) :
  (-1 <= f)%Q -> (f < 1)%Q -> (-32768 <= encodeSample f <= 32767)%Z.
Proof.
  intros Hlo Hhi. unfold encodeSample. split.
  - rewrite <- (Qfloor_Z (-32768)). apply Qfloor_resp_le.
    change (inject_Z (-32768)) with (-32768 # 1)%Q. lra.
  - assert (inject_Z (Qfloor (f * 32768)) < inject_Z 32768)%Q as Hlt.
    { eapply Qle_lt_trans; [apply Qfloor_le|].
      change (inject_Z 32768) with (32768 # 1)%Q. lra. }
    rewrite <- Zlt_Qlt in Hlt. lia.
Qed.

Lemma encodeSample_error (f : Q) :
  (Qabs (inject_Z (encodeSample f) / 32768 - f) <= 1 # 32768)%Q.
Proof.
  unfold encodeSample.
  pose proof (Qfloor_le (f * 32768)) as Hle.
  pose proof (Qlt_floor (f * 32768)) as Hlt.
  rewrite inject_Z_plus in Hlt. change (inject_Z 1) with 1%Q in Hlt.
  set (z := inject_Z (Qfloor (f * 32768))) in *.
  change (z / 32768)%Q with (z * (1 # 32768))%Q.
  apply Qabs_Qle_condition. split; lra.
Qed.

Lemma int16_bytes_length (host : endianness) (s : Z) :
  length (int16_bytes host s) = 2%nat.
Proof. by destruct host. Qed.

Lemma encodePCM_length (host : endianness) (fs : list Q) :
  length (encodePCM host fs) = (2 * length fs)%nat.
Proof.
  induction fs as [|f fs IH]; [done|].
  cbn [encodePCM flat_map]. rewrite length_app, int16_bytes_length.
  fold (encodePCM host fs). rewrite IH. cbn [length]. lia.
Qed.

Lemma encodePCM_view (host : endianness) (fs : list Q) :
  Forall (fun f => (-1 <= f)%Q /\ (f < 1)%Q) fs ->
  int16_elements host (encodePCM host fs) = encodeSample <$> fs.
Proof.
  induction 1 as [|f fs [Hlo Hhi] _ IH]; [done|].
  cbn [encodePCM flat_map fmap list_fmap].
  rewrite int16_elements_bytes by by apply encodeSample_range.
  f_equal. apply IH.
Qed.

(** C6. A list of samples in [-1, 1), each multiplied by 32768 and
    quantized to a 16-bit integer, written as PCM bytes and decoded as one
    channel, comes back within 1/32768 of the original, sample by sample. *)
Theorem pcm_round_trip (host : endianness) (ctx : AudioContext) (rate : Z)
    (fs : list Q) :
  supports ctx 1 rate ->
  fs <> [] ->
  Forall (fun f => (-1 <= f)%Q /\ (f < 1)%Q) fs ->
  exists buf decoded,
    decodeAudioData host (Uint8Array_of (encodePCM host fs)) ctx rate 1 = Ok buf /\
    channels buf = [decoded] /\
    Forall2 (fun f x => exists q, x = Num q /\ (Qabs (q - f) <= 1 # 32768)%Q)
            fs decoded.
Proof.
  intros Hsup Hne Hrange.
  pose proof (encodePCM_length host fs) as Hlen.
  assert (Nat.even (length (encodePCM host fs)) = true) as He.
  { rewrite Hlen. apply Nat.even_spec. by exists (length fs). }
  assert (length (encodePCM host fs) / 2 / 1 = length fs)%nat as Hframes.
  { rewrite Nat.div_1_r, Hlen, (Nat.mul_comm 2), Nat.div_mul; lia. }
  rewrite decodeAudioData_even by done. cbn zeta. rewrite Hframes.
  rewrite createBuffer_ok; [|done|destruct fs; [done | cbn; lia]].
  cbn [bind]. do 2 eexists. split; [done|].
  cbn [channels]. split; [done|].
  rewrite encodePCM_view by done.
  apply Forall2_same_length_lookup_2.
  - by rewrite length_fmap, length_seq.
  - intros i f x Hf Hx.
    rewrite list_lookup_fmap in Hx.
    destruct (seq 0 (length fs) !! i) as [i'|] eqn:Hi; [|done].
    apply lookup_seq in Hi as [-> Hi]. cbn in Hx.
    replace (i * 1 + 0)%nat with i in Hx by lia.
    rewrite list_lookup_fmap, Hf in Hx. cbn in Hx. injection Hx as <-.
    eexists. split; [done|]. apply encodeSample_error.
Qed.

Lemma pcm_round_trip_witness :
  exists buf decoded,
    decodeAudioData LittleEndian
      (Uint8Array_of (encodePCM LittleEndian [1 # 3; -1; 99999 # 100000]%Q))
      baselineContext 24000 1 = Ok buf /\
    channels buf = [decoded] /\
    Forall2 (fun f x => exists q, x = Num q /\ (Qabs (q - f) <= 1 # 32768)%Q)
            [1 # 3; -1; 99999 # 100000]%Q decoded.
Proof.
  apply (pcm_round_trip LittleEndian baselineContext 24000
           [1 # 3; -1; 99999 # 100000]%Q).
  - unfold supports. cbn. lia.
  - discriminate.
  - repeat constructor; cbn; discriminate.
Defined.

(** ** Audio generation *)

Lemma deinterleaved_mono (samples : list Z) :
  deinterleaved samples 1 (length samples / 1) =
  [(fun s => normalize (Some s)) <$> samples].
Proof.
  rewrite Nat.div_1_r. unfold deinterleaved. cbn [seq fmap list_fmap].
  f_equal. apply list_eq. intros i. rewrite !list_lookup_fmap.
  destruct (decide (i < length samples)%nat) as [Hi|Hi].
  - rewrite lookup_seq_lt by done. cbn.
    replace (i * 1 + 0)%nat with i by lia.
    by destruct (lookup_lt_is_Some_2 samples i Hi) as [s ->].
  - rewrite lookup_seq_ge by lia. cbn.
    by rewrite lookup_ge_None_2 by lia.
Qed.

(** C9. Every buffer [generateLeapAudio] returns comes from a call of the
    decoder with sample rate 24000 and channel count 1, the only call of the
    decoder in the program: the buffer is mono at 24000 Hz, and its single
    channel holds the samples one after the other, each divided by 32768. *)
Theorem generateLeapAudio_mono_24000 (host : endianness)
    (response : AudioResponse) (audioContext : AudioContext) (buf : AudioBuffer) :
  generateLeapAudio host response audioContext = Ok buf ->
  (exists base64Audio bytes,
      response = Ok (Some base64Audio) /\
      decode base64Audio = Ok bytes /\
      decodeAudioData host bytes audioContext 24000 1 = Ok buf /\
      channels buf =
        [(fun s => Num (inject_Z s / 32768)) <$> int16_elements host (buffer bytes)]) /\
  sampleRate buf = 24000%Z /\
  numberOfChannels buf = 1%nat.
Proof.
  unfold generateLeapAudio.
  destruct response as [[base64Audio|]|e]; cbn [bind]; try done.
  destruct (falsy base64Audio); [done|].
  destruct (decode base64Audio) as [bytes|e] eqn:Hdecode; cbn [bind]; [|done].
  intros Hbuf. pose proof Hbuf as Hinv.
  apply decodeAudioData_inv in Hinv as (_ & _ & _ & ->).
  split; [|done].
  exists base64Audio, bytes. repeat split; try done.
  cbn [channels]. apply deinterleaved_mono.
Qed.

Lemma generateLeapAudio_mono_24000_witness :
  (exists base64Audio bytes,
      Ok (Some "AAAAQACA/38="%string) = Ok (Some base64Audio) /\
      decode base64Audio = Ok bytes /\
      decodeAudioData LittleEndian bytes baselineContext 24000 1
        = Ok pcm_example_mono /\
      channels pcm_example_mono =
        [(fun s => Num (inject_Z s / 32768))
           <$> int16_elements LittleEndian (buffer bytes)]) /\
  sampleRate pcm_example_mono = 24000%Z /\
  numberOfChannels pcm_example_mono = 1%nat.
Proof.
  apply (generateLeapAudio_mono_24000 LittleEndian
           (Ok (Some "AAAAQACA/38="%string)) baselineContext pcm_example_mono).
  vm_compute. reflexivity.
Defined.

(** ** The orchestration *)

(** C8. When the text analysis returns a manifest (and the audio context
    can be built), the run ends with status 'complete' and keeps the
    manifest, whatever the image and audio tasks do: each media field holds
    its task's value, or null when the task failed, and the error field is
    the partial-failure message exactly when one of the two failed. *)
Theorem handleLeap_partial_failure (svc : Services) (app : App)
    (m : LeapManifest) (audioCtx : AudioContext) :
  falsy (trim (topic app)) = false ->
  includes (toLowerCase (topic app)) "aether"
    || includes (toLowerCase (topic app)) "event" = false ->
  generateManifest svc (topic app) = Ok m ->
  newAudioContext svc = Ok audioCtx ->
  let image := generateLeapImage svc (imagePrompt m) in
  let audio := generateLeapAudioFor svc (audioScript m) audioCtx in
  let final := state (handleLeap svc app).1 in
  status final = complete /\
  manifest final = Some m /\
  imageData final = (match image with Ok v => Some v | Throw _ => None end) /\
  audioBuffer final = (match audio with Ok v => Some v | Throw _ => None end) /\
  errorMessage final =
    (if is_ok image && is_ok audio then None else Some partialFailureMessage).
Proof.
  intros Hblank Hgate Hm Hctx. unfold handleLeap.
  rewrite Hblank, Hgate. cbn [setState topic state].
  rewrite Hm, Hctx. cbn [fst setState state status manifest imageData
                         audioBuffer errorMessage].
  repeat split.
  - by destruct (generateLeapImage _ _).
  - by destruct (generateLeapAudioFor _ _ _).
  - by destruct (generateLeapImage _ _), (generateLeapAudioFor _ _ _).
Qed.

Lemma prefix_app (sub s : string) :
  String.prefix sub s = true <-> exists post, s = (sub ++ post)%string.
Proof.
  revert s. induction sub as [|c sub IH]; intros s.
  - split; [intros _; by exists s | by destruct s].
  - destruct s as [|c' s]; cbn.
    + split; [done | by intros [post Hpost]].
    + destruct (Ascii.ascii_dec c c') as [->|Hne].
      * rewrite IH.
        split; intros [post Hp]; exists post; [by rewrite Hp | by injection Hp].
      * split; [done|]. intros [post Hp]. by injection Hp.
Qed.

Lemma includes_app (s sub : string) :
  includes s sub = true <-> exists pre post, s = (pre ++ sub ++ post)%string.
Proof.
  induction s as [|c s IH].
  - cbn [includes]. rewrite orb_false_r, prefix_app. split.
    + intros [post ->]. by exists ""%string, post.
    + intros [pre [post Heq]]. destruct pre as [|c pre]; [|done].
      by exists post.
  - cbn [includes]. rewrite orb_true_iff, prefix_app, IH. split.
    + intros [[post ->] | [pre [post ->]]].
      * by exists ""%string, post.
      * by exists (String c pre), post.
    + intros [pre [post Heq]]. destruct pre as [|c' pre].
      * left. by exists post.
      * right. injection Heq as -> ->. by exists pre, post.
Qed.

Lemma toLowerCase_app (a b : string) :
  toLowerCase (a ++ b) = (toLowerCase a ++ toLowerCase b)%string.
Proof. induction a as [|c a IH]; cbn; [done | by rewrite IH]. Qed.

Lemma toLowerCase_split (s a b : string) :
  toLowerCase s = (a ++ b)%string ->
  exists a' b', s = (a' ++ b')%string /\ toLowerCase a' = a /\ toLowerCase b' = b.
Proof.
  revert s. induction a as [|c a IH]; intros s Hs.
  - by exists ""%string, s.
  - destruct s as [|c' s]; [done|]. cbn in Hs. injection Hs as <- Hs.
    destruct (IH s Hs) as (a' & b' & -> & <- & <-).
    by exists (String c' a'), b'.
Qed.

Lemma includes_toLowerCase (s sub : string) :
  includes (toLowerCase s) sub = true <-> containsIgnoringCase s sub.
Proof.
  rewrite includes_app. unfold containsIgnoringCase. split.
  - intros (pre & post & Heq).
    apply toLowerCase_split in Heq as (pre' & rest & -> & _ & Hrest).
    apply toLowerCase_split in Hrest as (mid & post' & -> & Hmid & _).
    by exists pre', mid, post'.
  - intros (pre & mid & post & -> & <-).
    exists (toLowerCase pre), (toLowerCase post).
    by rewrite !toLowerCase_app.
Qed.

(** C10. A non-blank topic that contains "aether" or "event", letter case
    ignored, opens the gate and empties the topic; no collaborator is called
    and the analysis state (status, manifest, image, audio) stays as it
    was. *)
Theorem handleLeap_gate (svc : Services) (app : App) :
  trim (topic app) <> ""%string ->
  containsIgnoringCase (topic app) "aether" \/
  containsIgnoringCase (topic app) "event" ->
  handleLeap svc app =
  ({| topic := ""; showGate := true; state := state app |}, []).
Proof.
  intros Hblank Hgate. unfold handleLeap.
  destruct (trim (topic app)); [done|]. cbn [falsy].
  rewrite <- !includes_toLowerCase in Hgate.
  by destruct Hgate as [-> | ->]; rewrite ?orb_true_r.
Qed.

Lemma handleLeap_partial_failure_witness :
  let final := state (handleLeap example_services (example_app "Black Holes")).1 in
  status final = complete /\
  manifest final = Some example_manifest /\
  imageData final = None /\
  audioBuffer final = Some pcm_example_mono /\
  errorMessage final = Some partialFailureMessage.
Proof.
  exact (handleLeap_partial_failure example_services (example_app "Black Holes")
           example_manifest baselineContext eq_refl eq_refl eq_refl eq_refl).
Defined.

Lemma handleLeap_gate_witness :
  handleLeap example_services (example_app "Event horizon") =
  ({| topic := ""; showGate := true; state := state initialApp |}, []).
Proof.
  apply (handleLeap_gate example_services (example_app "Event horizon")).
  - discriminate.
  - right. exists ""%string, "Event"%string, " horizon"%string.
    split; reflexivity.
Defined.

(* ================================================================== *)
(** * Further properties *)

(** ** The decoder: outcomes and shape *)

Lemma supports_dec (ctx : AudioContext) (nChannels : nat) (rate : Z) :
  {supports ctx nChannels rate} + {~ supports ctx nChannels rate}.
Proof.
  unfold supports.
  destruct (le_dec 1 nChannels), (le_dec nChannels (maxChannels ctx)),
    (Z_le_dec (minSampleRate ctx) rate), (Z_le_dec rate (maxSampleRate ctx));
    (by left) || (right; lia).
Qed.

Lemma createBuffer_refuses (ctx : AudioContext) (nChannels len : nat) (rate : Z) :
  ~ (supports ctx nChannels rate /\ (1 <= len)%nat) ->
  createBuffer ctx nChannels len rate = Throw NotSupportedError.
Proof.
  intros Hno. destruct (createBuffer ctx nChannels len rate) as [b|e] eqn:Hcreate.
  - by apply createBuffer_inv in Hcreate.
  - unfold createBuffer in Hcreate. destruct (_ || _); congruence.
Qed.

(** X1. What the decoder does with any view, any context, rate and channel
    count: a RangeError when the buffer has an odd number of bytes, whatever
    the other arguments; otherwise a NotSupportedError unless the context
    supports the channel count and the rate and the samples fill at least
    one frame; otherwise a buffer, and these are the only outcomes. *)
Theorem decodeAudioData_outcome (host : endianness) (data : Uint8Array)
    (ctx : AudioContext) (rate : Z) (numChannels : nat) :
  let frames := (length (buffer data) / 2 / numChannels)%nat in
  (Nat.even (length (buffer data)) = false ->
   decodeAudioData host data ctx rate numChannels = Throw RangeError) /\
  (Nat.even (length (buffer data)) = true ->
   ~ (supports ctx numChannels rate /\ (1 <= frames)%nat) ->
   decodeAudioData host data ctx rate numChannels = Throw NotSupportedError) /\
  (is_ok (decodeAudioData host data ctx rate numChannels) = true <->
   Nat.even (length (buffer data)) = true /\
   supports ctx numChannels rate /\ (1 <= frames)%nat).
Proof.
  cbn zeta. rewrite decodeAudioData_closed_form. unfold Int16Array_new.
  destruct (Nat.even (length (buffer data))) eqn:He; cbn [bind].
  - rewrite int16_elements_length.
    split; [done|]. split; [intros _ Hno; by rewrite createBuffer_refuses|].
    split.
    + destruct (createBuffer _ _ _ _) as [b|e] eqn:Hcreate; [|done].
      intros _. split; [done|]. by apply createBuffer_inv in Hcreate.
    + intros (_ & Hsup & Hframes). by rewrite createBuffer_ok.
  - split; [done|]. split; [done|]. split; [done|]. by intros [? _].
Qed.

Lemma decodeAudioData_outcome_witness :
  decodeAudioData LittleEndian (Uint8Array_of [x00; x01; x02]) baselineContext 24000 0
    = Throw RangeError /\
  decodeAudioData LittleEndian (Uint8Array_of pcm_example) baselineContext 24000 5
    = Throw NotSupportedError /\
  is_ok (decodeAudioData LittleEndian (Uint8Array_of pcm_example)
           baselineContext 24000 4) = true.
Proof.
  split; [|split].
  - apply (decodeAudioData_outcome LittleEndian (Uint8Array_of [x00; x01; x02])
             baselineContext 24000 0). reflexivity.
  - apply (decodeAudioData_outcome LittleEndian (Uint8Array_of pcm_example)
             baselineContext 24000 5); [reflexivity|].
    vm_compute. intros [_ Hframes]. inversion Hframes.
  - apply (decodeAudioData_outcome LittleEndian (Uint8Array_of pcm_example)
             baselineContext 24000 4).
    split; [reflexivity|]. split; [unfold supports; cbn; lia | cbn; lia].
Defined.

(** X2. A buffer the decoder returns is never empty and is rectangular: it
    has the channel count asked for, at least one, one array per channel,
    every array of the buffer's length, which is at least one frame; and it
    holds no more samples than the input has. *)
Theorem decodeAudioData_shape (host : endianness) (data : Uint8Array)
    (ctx : AudioContext) (rate : Z) (numChannels : nat) (buf : AudioBuffer) :
  decodeAudioData host data ctx rate numChannels = Ok buf ->
  numberOfChannels buf = numChannels /\
  (1 <= numberOfChannels buf)%nat /\
  (1 <= frameLength buf)%nat /\
  length (channels buf) = numberOfChannels buf /\
  Forall (fun channelData => length channelData = frameLength buf) (channels buf) /\
  (2 * (frameLength buf * numberOfChannels buf) <= length (buffer data))%nat.
Proof.
  intros Hbuf.
  apply decodeAudioData_inv in Hbuf as (He & [[Hc _] _] & Hf & ->).
  cbn [numberOfChannels frameLength channels]. unfold deinterleaved.
  rewrite length_fmap, length_seq. repeat split; try done.
  - apply Forall_fmap, Forall_forall. intros c _. cbn.
    by rewrite length_fmap, length_seq.
  - rewrite int16_elements_length.
    pose proof (Nat.Div0.mul_div_le (length (buffer data) / 2) numChannels).
    pose proof (Nat.Div0.mul_div_le (length (buffer data)) 2). lia.
Qed.

Lemma decodeAudioData_shape_witness :
  numberOfChannels pcm_example_stereo = 2%nat /\
  (1 <= numberOfChannels pcm_example_stereo)%nat /\
  (1 <= frameLength pcm_example_stereo)%nat /\
  length (channels pcm_example_stereo) = numberOfChannels pcm_example_stereo /\
  Forall (fun channelData => length channelData = frameLength pcm_example_stereo)
         (channels pcm_example_stereo) /\
  (2 * (frameLength pcm_example_stereo * numberOfChannels pcm_example_stereo)
   <= length (buffer (Uint8Array_of pcm_example)))%nat.
Proof.
  apply (decodeAudioData_shape LittleEndian (Uint8Array_of pcm_example)
           baselineContext 24000 2 pcm_example_stereo eq_refl).
Defined.

(** ** The decoder: where samples go *)

Lemma decodeAudioData_slot (host : endianness) (data : Uint8Array)
    (ctx : AudioContext) (rate : Z) (numChannels : nat) (buf : AudioBuffer)
    (c i : nat) :
  decodeAudioData host data ctx rate numChannels = Ok buf ->
  (c < numChannels)%nat -> (i < frameLength buf)%nat ->
  exists s,
    int16_elements host (buffer data) !! (i * numChannels + c)%nat = Some s /\
    sampleAt buf c i = Some (Num (inject_Z s / 32768)).
Proof.
  intros Hbuf Hc Hi.
  apply decodeAudioData_inv in Hbuf as (_ & _ & _ & ->).
  cbn [frameLength] in Hi. unfold sampleAt. cbn [channels].
  rewrite deinterleaved_lookup by done.
  set (samples := int16_elements host (buffer data)) in *.
  assert (i * numChannels + c < length samples)%nat as Hidx.
  { pose proof (interleaved_index numChannels _ c i Hc Hi).
    pose proof (Nat.Div0.mul_div_le (length samples) numChannels). lia. }
  destruct (lookup_lt_is_Some_2 samples _ Hidx) as [s Hs].
  exists s. by rewrite Hs.
Qed.

Lemma sampleAt_inv (host : endianness) (data : Uint8Array)
    (ctx : AudioContext) (rate : Z) (numChannels : nat) (buf : AudioBuffer)
    (c i : nat) (x : float) :
  decodeAudioData host data ctx rate numChannels = Ok buf ->
  sampleAt buf c i = Some x ->
  (c < numChannels)%nat /\ (i < frameLength buf)%nat.
Proof.
  intros Hbuf Hx.
  apply decodeAudioData_inv in Hbuf as (_ & _ & _ & ->).
  unfold sampleAt, deinterleaved in Hx. cbn [channels frameLength] in *.
  rewrite list_lookup_fmap in Hx.
  destruct (seq 0 numChannels !! c) as [c'|] eqn:Hc; [|done].
  apply lookup_seq in Hc as [-> Hc]. cbn in Hx.
  rewrite list_lookup_fmap in Hx.
  destruct (seq 0 _ !! i) as [i'|] eqn:Hi; [|done].
  by apply lookup_seq in Hi as [-> Hi].
Qed.

(** X3. Between the slots of a returned buffer and the samples of the whole
    frames there is a one-to-one correspondence, on any host: sample [k]
    (below frames * channels) is found, divided by 32768, at channel
    [k mod numChannels], frame [k / numChannels], and every slot
    [(c, i)] of the buffer holds sample [i * numChannels + c]. *)
Theorem decodeAudioData_keeps_every_sample (host : endianness)
    (data : Uint8Array) (ctx : AudioContext) (rate : Z) (numChannels : nat)
    (buf : AudioBuffer) :
  decodeAudioData host data ctx rate numChannels = Ok buf ->
  (forall k, (k < frameLength buf * numChannels)%nat ->
     exists s,
       int16_elements host (buffer data) !! k = Some s /\
       sampleAt buf (k mod numChannels) (k / numChannels)
         = Some (Num (inject_Z s / 32768))) /\
  (forall c i x, sampleAt buf c i = Some x ->
     (c < numChannels)%nat /\ (i < frameLength buf)%nat /\
     exists s,
       int16_elements host (buffer data) !! (i * numChannels + c)%nat = Some s /\
       x = Num (inject_Z s / 32768)).
Proof.
  intros Hbuf. split.
  - intros k Hk.
    assert (numChannels <> 0)%nat as Hnz by (intros ->; lia).
    assert (k mod numChannels < numChannels)%nat as Hc
      by by apply Nat.mod_upper_bound.
    assert (k / numChannels < frameLength buf)%nat as Hi
      by (apply Nat.Div0.div_lt_upper_bound; lia).
    destruct (decodeAudioData_slot _ _ _ _ _ _ _ _ Hbuf Hc Hi) as (s & Hs & Hx).
    exists s. split; [|done].
    rewrite <- Hs. f_equal.
    pose proof (Nat.div_mod_eq k numChannels). lia.
  - intros c i x Hx.
    destruct (sampleAt_inv _ _ _ _ _ _ _ _ _ Hbuf Hx) as [Hc Hi].
    repeat split; try done.
    destruct (decodeAudioData_slot _ _ _ _ _ _ _ _ Hbuf Hc Hi) as (s & Hs & Hx').
    exists s. split; [done|]. congruence.
Qed.

Lemma decodeAudioData_keeps_every_sample_witness :
  exists s,
    int16_elements LittleEndian (buffer (Uint8Array_of pcm_example)) !! 3%nat = Some s /\
    sampleAt pcm_example_stereo (3 mod 2) (3 / 2) = Some (Num (inject_Z s / 32768)).
Proof.
  destruct (decodeAudioData_keeps_every_sample LittleEndian
              (Uint8Array_of pcm_example) baselineContext 24000 2
              pcm_example_stereo eq_refl) as [Hfound _].
  apply (Hfound 3%nat). cbn. lia.
Defined.

Lemma int16_elements_app (host : endianness) (bs more : list byte) :
  Nat.even (length bs) = true ->
  int16_elements host (bs ++ more) =
  int16_elements host bs ++ int16_elements host more.
Proof.
  induction bs as [| a | a b l IH] using pair_induction; [done | done |].
  intros He. cbn [app int16_elements]. f_equal. by apply IH.
Qed.

(** X4. Decoding is local to the frames: when more bytes follow an input of
    even length, every slot of the first decoding holds the same value in
    the second. *)
Theorem decodeAudioData_prefix (host : endianness) (ctx : AudioContext)
    (rate : Z) (numChannels : nat) (bs more : list byte)
    (buf1 buf2 : AudioBuffer) :
  decodeAudioData host (Uint8Array_of bs) ctx rate numChannels = Ok buf1 ->
  decodeAudioData host (Uint8Array_of (bs ++ more)) ctx rate numChannels = Ok buf2 ->
  (frameLength buf1 <= frameLength buf2)%nat /\
  forall c i x, sampleAt buf1 c i = Some x -> sampleAt buf2 c i = Some x.
Proof.
  intros H1 H2.
  pose proof (decodeAudioData_inv _ _ _ _ _ _ H1) as (He1 & _ & _ & Hb1).
  pose proof (decodeAudioData_inv _ _ _ _ _ _ H2) as (_ & _ & _ & Hb2).
  cbn [buffer Uint8Array_of] in *.
  assert (frameLength buf1 <= frameLength buf2)%nat as Hframes.
  { rewrite Hb1, Hb2. cbn [frameLength].
    rewrite int16_elements_app, length_app by done.
    apply Nat.Div0.div_le_mono. lia. }
  split; [done|]. intros c i x Hx.
  destruct (sampleAt_inv _ _ _ _ _ _ _ _ _ H1 Hx) as [Hc Hi].
  destruct (decodeAudioData_slot _ _ _ _ _ _ _ _ H1 Hc Hi) as (s & Hs & Hx1).
  destruct (decodeAudioData_slot _ _ _ _ _ _ c i H2 Hc) as (s' & Hs' & Hx2); [lia|].
  cbn [buffer Uint8Array_of] in *.
  rewrite int16_elements_app in Hs' by done.
  rewrite (lookup_app_l_Some _ _ _ _ Hs) in Hs'. congruence.
Qed.

Lemma decodeAudioData_prefix_witness :
  (frameLength pcm_example_stereo <= 3)%nat /\
  forall c i x,
    sampleAt pcm_example_stereo c i = Some x ->
    sampleAt {| sampleRate := 24000; numberOfChannels := 2; frameLength := 3;
                channels := [[Num (0 # 32768); Num (-32768 # 32768); Num (1 # 32768)];
                             [Num (16384 # 32768); Num (32767 # 32768);
                              Num (-1 # 32768)]] |} c i = Some x.
Proof.
  apply (decodeAudioData_prefix LittleEndian baselineContext 24000 2
           pcm_example [x01; x00; xff; xff] pcm_example_stereo _ eq_refl eq_refl).
Defined.

(** ** The decoder: byte order and injectivity *)

Lemma swapPairs_length (bs : list byte) : length (swapPairs bs) = length bs.
Proof.
  induction bs as [| a | a b l IH] using pair_induction; [done | done |].
  cbn [swapPairs length]. by rewrite IH.
Qed.

Lemma int16_elements_swapPairs (bs : list byte) :
  int16_elements BigEndian bs = int16_elements LittleEndian (swapPairs bs).
Proof.
  induction bs as [| a | a b l IH] using pair_induction; [done | done |].
  cbn [swapPairs int16_elements]. by rewrite IH.
Qed.

(** X5. A big-endian host decodes an input exactly as a little-endian host
    decodes the input with the two bytes of every sample exchanged: same
    buffer, same exception. *)
Theorem decodeAudioData_byte_order_dual (ctx : AudioContext) (rate : Z)
    (numChannels : nat) (bs : list byte) :
  decodeAudioData BigEndian (Uint8Array_of bs) ctx rate numChannels =
  decodeAudioData LittleEndian (Uint8Array_of (swapPairs bs)) ctx rate numChannels.
Proof.
  rewrite !decodeAudioData_closed_form. cbn [buffer Uint8Array_of].
  unfold Int16Array_new.
  by rewrite swapPairs_length, int16_elements_swapPairs.
Qed.

Lemma byte_of_Z_to_Z (b : byte) : byte_of_Z (byte_to_Z b) = b.
Proof.
  unfold byte_of_Z, byte_to_Z. by rewrite N2Z.id, Byte.of_to_N.
Qed.

Lemma toInt16_mod (u : Z) :
  (0 <= u < 65536)%Z -> (toInt16 u mod 65536 = u)%Z.
Proof.
  intros Hu. unfold toInt16. destruct (Z.ltb_spec u 32768).
  - apply Z.mod_small. lia.
  - replace (u - 65536)%Z with (u + (-1) * 65536)%Z by lia.
    rewrite Z_mod_plus_full. apply Z.mod_small. lia.
Qed.

Lemma low_high_bytes (lo hi : Z) :
  (0 <= lo < 256)%Z -> (0 <= hi < 256)%Z ->
  ((lo + 256 * hi) mod 256 = lo)%Z /\ ((lo + 256 * hi) / 256 = hi)%Z.
Proof.
  intros Hlo Hhi. split; Z.to_euclidean_division_equations; lia.
Qed.

(** The two bytes of an element can be read back from its value. *)
Lemma int16_bytes_of_pair (host : endianness) (b0 b1 : byte) :
  int16_bytes host (int16_of_pair host b0 b1) = [b0; b1].
Proof.
  pose proof (byte_to_Z_range b0) as H0. pose proof (byte_to_Z_range b1) as H1.
  unfold int16_bytes.
  destruct host; cbn [int16_of_pair]; rewrite lor_shiftl_8 by lia;
    rewrite toInt16_mod by lia.
  - destruct (low_high_bytes (byte_to_Z b0) (byte_to_Z b1)) as [-> ->]; [lia..|].
    by rewrite !byte_of_Z_to_Z.
  - destruct (low_high_bytes (byte_to_Z b1) (byte_to_Z b0)) as [-> ->]; [lia..|].
    by rewrite !byte_of_Z_to_Z.
Qed.

Lemma normalize_inj (s s' : Z) :
  Num (inject_Z s / 32768) = Num (inject_Z s' / 32768) -> s = s'.
Proof.
  unfold Qdiv, Qmult, Qinv, inject_Z. cbn. intros [= H]. lia.
Qed.

(** X6. The decoder loses nothing of the whole frames: two inputs that
    decode to the same buffer have the same bytes up to the end of the last
    whole frame (they can differ in the samples left over). *)
Theorem decodeAudioData_injective (host : endianness) (ctx : AudioContext)
    (rate : Z) (numChannels : nat) (data1 data2 : Uint8Array)
    (buf : AudioBuffer) :
  decodeAudioData host data1 ctx rate numChannels = Ok buf ->
  decodeAudioData host data2 ctx rate numChannels = Ok buf ->
  take (2 * (frameLength buf * numChannels)) (buffer data1) =
  take (2 * (frameLength buf * numChannels)) (buffer data2).
Proof.
  intros H1 H2.
  assert (forall data, decodeAudioData host data ctx rate numChannels = Ok buf ->
            (2 * (frameLength buf * numChannels) <= length (buffer data))%nat)
    as Hlong.
  { intros data Hd.
    pose proof (decodeAudioData_inv _ _ _ _ _ _ Hd) as (He & _ & _ & ->).
    cbn [frameLength].
    rewrite int16_elements_length.
    pose proof (Nat.Div0.mul_div_le (length (buffer data) / 2) numChannels).
    pose proof (Nat.Div0.mul_div_le (length (buffer data)) 2). lia. }
  pose proof (Hlong _ H1) as Hlen1. pose proof (Hlong _ H2) as Hlen2.
  assert (numChannels <> 0)%nat as Hnz.
  { apply decodeAudioData_inv in H1 as (_ & [[? _] _] & _). lia. }
  assert (forall k, (k < frameLength buf * numChannels)%nat ->
            int16_elements host (buffer data1) !! k =
            int16_elements host (buffer data2) !! k) as Hsame.
  { intros k Hk.
    assert (k mod numChannels < numChannels)%nat as Hc
      by by apply Nat.mod_upper_bound.
    assert (k / numChannels < frameLength buf)%nat as Hi
      by (apply Nat.Div0.div_lt_upper_bound; lia).
    destruct (decodeAudioData_slot _ _ _ _ _ _ _ _ H1 Hc Hi) as (s1 & Hs1 & Hx1).
    destruct (decodeAudioData_slot _ _ _ _ _ _ _ _ H2 Hc Hi) as (s2 & Hs2 & Hx2).
    assert (k / numChannels * numChannels + k mod numChannels = k)%nat as Hk'
      by (pose proof (Nat.div_mod_eq k numChannels); lia).
    rewrite Hk' in Hs1, Hs2. rewrite Hs1, Hs2. f_equal.
    apply normalize_inj. congruence. }
  apply list_eq_same_length with (2 * (frameLength buf * numChannels))%nat.
  - rewrite length_take. lia.
  - rewrite length_take. lia.
  - intros j x y Hj Hx Hy.
    rewrite lookup_take_lt in Hx, Hy by done.
    set (k := (j / 2)%nat).
    assert (k < frameLength buf * numChannels)%nat as Hk
      by (apply Nat.Div0.div_lt_upper_bound; lia).
    specialize (Hsame k Hk). rewrite !int16_elements_lookup in Hsame.
    assert (2 * k + 1 < length (buffer data1))%nat as Hin1 by lia.
    assert (2 * k + 1 < length (buffer data2))%nat as Hin2 by lia.
    destruct (lookup_lt_is_Some_2 (buffer data1) (2 * k)%nat) as [a1 Ha1]; [lia|].
    destruct (lookup_lt_is_Some_2 (buffer data1) (2 * k + 1)%nat) as [b1 Hb1]; [lia|].
    destruct (lookup_lt_is_Some_2 (buffer data2) (2 * k)%nat) as [a2 Ha2]; [lia|].
    destruct (lookup_lt_is_Some_2 (buffer data2) (2 * k + 1)%nat) as [b2 Hb2]; [lia|].
    rewrite Ha1, Hb1, Ha2, Hb2 in Hsame. injection Hsame as Hpair.
    apply (f_equal (int16_bytes host)) in Hpair.
    rewrite !int16_bytes_of_pair in Hpair. injection Hpair as -> ->.
    pose proof (Nat.div_mod_eq j 2) as Hj2. fold k in Hj2.
    destruct (Nat.mod_bound_pos j 2) as [_ Hm]; [lia..|].
    destruct (j mod 2)%nat as [|[|m]] eqn:Hmod; [| |lia].
    + replace j with (2 * k)%nat in Hx, Hy by lia. congruence.
    + replace j with (2 * k + 1)%nat in Hx, Hy by lia. congruence.
Qed.

Lemma decodeAudioData_injective_witness :
  take (2 * (1 * 3)) (buffer (Uint8Array_of pcm_example)) =
  take (2 * (1 * 3))
       (buffer (Uint8Array_of [x00; x00; x00; x40; x00; x80; x11; x33])).
Proof.
  apply (decodeAudioData_injective LittleEndian baselineContext 24000 3
           (Uint8Array_of pcm_example)
           (Uint8Array_of [x00; x00; x00; x40; x00; x80; x11; x33])
           {| sampleRate := 24000; numberOfChannels := 3; frameLength := 1;
              channels := [[Num (0 # 32768)]; [Num (16384 # 32768)];
                           [Num (-32768 # 32768)]] |} eq_refl eq_refl).
Defined.

(** ** Base64 payloads *)

Lemma Uint8Array_set_whole (l : list byte) (i : nat) (v : byte) :
  Uint8Array_set (Uint8Array_of l) i v = Uint8Array_of (<[i := v]> l).
Proof.
  unfold Uint8Array_set, Uint8Array_of. cbn [byteLength byteOffset buffer].
  rewrite length_insert.
  destruct (Nat.ltb_spec i (length l)); [done|].
  by rewrite list_insert_ge by lia.
Qed.

Lemma Uint8Array_set_loop (f : nat -> byte) (idx : list nat) (l : list byte) :
  foldl (fun bytes i => Uint8Array_set bytes i (f i)) (Uint8Array_of l) idx =
  Uint8Array_of (foldl (fun l i => <[i := f i]> l) l idx).
Proof.
  revert l. induction idx as [|i idx IH]; intros l; [done|].
  cbn [foldl]. by rewrite Uint8Array_set_whole, IH.
Qed.

Lemma string_get_lookup (s : string) (i : nat) :
  String.get i s = list_ascii_of_string s !! i.
Proof.
  revert i. induction s as [|c s IH]; intros i; [done|].
  destruct i as [|i]; [done|]. apply IH.
Qed.

Lemma string_length_list (s : string) :
  String.length s = length (list_ascii_of_string s).
Proof. induction s as [|c s IH]; [done|]. cbn. by rewrite IH. Qed.

Lemma toUint8_charCode (c : ascii) :
  toUint8 (Some (charCode c)) = byte_of_ascii c.
Proof.
  unfold toUint8, charCode.
  rewrite N.mod_small by apply N_ascii_bounded.
  by rewrite <- byte_of_ascii_via_N.
Qed.

Lemma byte_of_ascii_code (c : ascii) :
  byte_to_Z (byte_of_ascii c) = Z.of_N (charCode c).
Proof.
  unfold byte_to_Z, charCode. f_equal.
  apply Byte.to_of_N. symmetry. apply byte_of_ascii_via_N.
Qed.

Lemma decode_closed_form (base64 : string) :
  decode base64 =
  let! binaryString := atob base64 in
  Ok (Uint8Array_of (binaryBytes binaryString)).
Proof.
  unfold decode. destruct (atob base64) as [s|e]; [|done]. cbn [bind].
  rewrite for_upto_nat, Uint8Array_set_loop. do 2 f_equal.
  rewrite foldl_insert_all by (rewrite length_replicate; lia).
  rewrite length_replicate. unfold binaryBytes.
  apply list_eq. intros i. rewrite !list_lookup_fmap, string_length_list.
  destruct (decide (i < length (list_ascii_of_string s))%nat) as [Hi|Hi].
  - rewrite lookup_seq_lt by done. cbn [fmap option_fmap option_map Nat.add].
    unfold charCodeAt. rewrite string_get_lookup.
    destruct (lookup_lt_is_Some_2 _ _ Hi) as [c ->].
    cbn [fmap option_fmap option_map]. by rewrite toUint8_charCode.
  - rewrite lookup_seq_ge, lookup_ge_None_2 by lia. done.
Qed.

(** X7. [decode] fails exactly when [atob] does, with the same exception;
    otherwise it returns a view of a whole, fresh buffer with one byte per
    character of the binary string, byte [i] being the code of character
    [i]. *)
Theorem decode_bytes (base64 : string) :
  (forall binaryString, atob base64 = Ok binaryString ->
     exists bytes,
       decode base64 = Ok bytes /\
       byteOffset bytes = 0%nat /\
       byteLength bytes = String.length binaryString /\
       length (buffer bytes) = String.length binaryString /\
       forall i, byte_to_Z <$> buffer bytes !! i
                 = Z.of_N <$> charCodeAt binaryString i) /\
  (forall e, atob base64 = Throw e -> decode base64 = Throw e).
Proof.
  rewrite decode_closed_form. split.
  - intros s ->. cbn [bind]. eexists. split; [done|].
    cbn [byteOffset byteLength buffer Uint8Array_of].
    unfold binaryBytes. rewrite length_fmap, <- string_length_list.
    repeat split. intros i. unfold charCodeAt.
    rewrite list_lookup_fmap, string_get_lookup.
    destruct (list_ascii_of_string s !! i) as [c|]; [|done]. cbn.
    by rewrite byte_of_ascii_code.
  - by intros e ->.
Qed.

Lemma decode_bytes_witness :
  exists bytes,
    decode "AAAAQACA/38=" = Ok bytes /\
    byteOffset bytes = 0%nat /\
    byteLength bytes = String.length (string_of_list_ascii (ascii_of_byte <$> pcm_example)) /\
    length (buffer bytes) = String.length (string_of_list_ascii (ascii_of_byte <$> pcm_example)) /\
    forall i, byte_to_Z <$> buffer bytes !! i
              = Z.of_N <$> charCodeAt (string_of_list_ascii (ascii_of_byte <$> pcm_example)) i.
Proof.
  destruct (decode_bytes "AAAAQACA/38=") as [Hok _].
  apply Hok. reflexivity.
Defined.

(** X8. What [generateLeapAudio] does with a payload that is not empty and
    that [atob] accepts as [n] bytes: a RangeError when [n] is odd; a
    NotSupportedError when [n] is 0 or the context does not support one
    channel at 24000 Hz; otherwise a buffer of [n / 2] frames at 24000 Hz
    with one channel. *)
Theorem generateLeapAudio_outcome (host : endianness) (base64Audio : string)
    (binaryString : string) (audioContext : AudioContext) :
  base64Audio <> ""%string ->
  atob base64Audio = Ok binaryString ->
  let n := String.length binaryString in
  let outcome := generateLeapAudio host (Ok (Some base64Audio)) audioContext in
  (Nat.even n = false -> outcome = Throw RangeError) /\
  (Nat.even n = true -> n = 0%nat \/ ~ supports audioContext 1 24000 ->
   outcome = Throw NotSupportedError) /\
  (Nat.even n = true -> (2 <= n)%nat -> supports audioContext 1 24000 ->
   exists buf,
     outcome = Ok buf /\ sampleRate buf = 24000%Z /\
     numberOfChannels buf = 1%nat /\ frameLength buf = (n / 2)%nat).
Proof.
  intros Hne Hatob. cbn zeta. unfold generateLeapAudio. cbn [bind].
  destruct base64Audio as [|c rest]; [done|]. cbn [falsy].
  rewrite decode_closed_form, Hatob. cbn [bind].
  assert (length (binaryBytes binaryString) = String.length binaryString) as Hlen.
  { unfold binaryBytes. by rewrite length_fmap, <- string_length_list. }
  split; [|split].
  - intros Ho. unfold decodeAudioData. cbn [buffer Uint8Array_of].
    by rewrite Int16Array_new_odd by by rewrite Hlen.
  - intros He Hno. rewrite decodeAudioData_even by by rewrite Hlen.
    cbn zeta. rewrite createBuffer_refuses; [done|].
    intros [Hsup Hframes]. destruct Hno as [Hzero | Hno]; [|done].
    rewrite Hlen, Hzero in Hframes. cbn in Hframes. lia.
  - intros He Hn Hsup. rewrite decodeAudioData_even by by rewrite Hlen.
    cbn zeta. rewrite Hlen, Nat.div_1_r.
    rewrite createBuffer_ok; [|done|apply Nat.div_le_lower_bound; lia].
    cbn [bind]. by eexists.
Qed.

Lemma generateLeapAudio_outcome_witness :
  generateLeapAudio LittleEndian (Ok (Some "AAAA"%string)) baselineContext
    = Throw RangeError /\
  generateLeapAudio LittleEndian (Ok (Some " "%string)) baselineContext
    = Throw NotSupportedError /\
  exists buf,
    generateLeapAudio LittleEndian (Ok (Some "AAAAQACA/38="%string)) baselineContext
      = Ok buf /\
    sampleRate buf = 24000%Z /\ numberOfChannels buf = 1%nat /\
    frameLength buf = (8 / 2)%nat.
Proof.
  destruct (generateLeapAudio_outcome LittleEndian "AAAA"
              (string_of_list_ascii (ascii_of_byte <$> [x00; x00; x00]))
              baselineContext) as (Hodd & _ & _); [discriminate | reflexivity |].
  destruct (generateLeapAudio_outcome LittleEndian " " "" baselineContext)
    as (_ & Hempty & _); [discriminate | reflexivity |].
  destruct (generateLeapAudio_outcome LittleEndian "AAAAQACA/38="
              (string_of_list_ascii (ascii_of_byte <$> pcm_example))
              baselineContext) as (_ & _ & Hbuffer); [discriminate | reflexivity |].
  split; [|split].
  - apply Hodd. reflexivity.
  - apply Hempty; [reflexivity | by left].
  - apply Hbuffer; [reflexivity | cbn; lia | unfold supports; cbn; lia].
Defined.

(** ** Image generation *)

Lemma scanParts_sightings (ps : list Gemini.Part) (rest : list Sighting) :
  firstSighting ((sightPart <$> ps) ++ rest) =
  match Gemini.scanParts ps with
  | Ok (Some v) => Ok v
  | Ok None => firstSighting rest
  | Throw e => Throw e
  end.
Proof.
  induction ps as [|part ps IH]; [done|].
  cbn [fmap list_fmap app Gemini.scanParts].
  unfold sightPart at 1, Gemini.isImagePart.
  destruct (Gemini.inlineData part) as [blob|]; cbn [bind mbind option_bind].
  - destruct (Gemini.mimeType blob) as [mime|]; cbn [bind firstSighting]; [|done].
    destruct (String.prefix "image/" mime); cbn [firstSighting]; [done|].
    apply IH.
  - cbn [firstSighting]. apply IH.
Qed.

Lemma scanCandidates_sightings (cs : list Gemini.Candidate) :
  firstSighting (sightings cs) =
  match Gemini.scanCandidates cs with
  | Ok (Some v) => Ok v
  | Ok None => Throw (Error "No image generated")
  | Throw e => Throw e
  end.
Proof.
  induction cs as [|candidate cs IH]; [done|].
  unfold sightings in *. cbn [mbind list_bind Gemini.scanCandidates].
  unfold sightCandidate at 1.
  destruct (Gemini.content candidate) as [c|]; cbn [mbind option_bind]; [|done].
  destruct (Gemini.parts c) as [ps|]; [|done].
  rewrite scanParts_sightings.
  destruct (Gemini.scanParts ps) as [[v|]|e]; cbn [bind]; try done.
Qed.

Lemma generateLeapImage_sightings (r : Gemini.GenerateContentResponse) :
  Gemini.generateLeapImage (Ok r) =
  firstSighting (sightings (default [] (Gemini.candidates r))).
Proof.
  unfold Gemini.generateLeapImage. cbn [bind].
  rewrite scanCandidates_sightings.
  by destruct (Gemini.scanCandidates _) as [[v|]|e].
Qed.

Lemma firstSighting_quiet (quiet rest : list Sighting) :
  Forall (fun s => s = NoImage) quiet ->
  firstSighting (quiet ++ rest) = firstSighting rest.
Proof. induction 1 as [|s quiet -> _ IH]; [done | apply IH]. Qed.

Lemma sightings_app (cs1 cs2 : list Gemini.Candidate) :
  sightings (cs1 ++ cs2) = sightings cs1 ++ sightings cs2.
Proof. unfold sightings. apply bind_app. Qed.

Lemma sightings_quiet (cs : list Gemini.Candidate) :
  Forall (fun c => Forall (fun s => s = NoImage) (sightCandidate c)) cs ->
  Forall (fun s => s = NoImage) (sightings cs).
Proof.
  induction 1 as [|c cs Hc _ IH]; [constructor|].
  unfold sightings. cbn [mbind list_bind]. by apply Forall_app.
Qed.

(** X9. [generateLeapImage] returns the data of the first image part, in
    the order of the candidates and of their parts: when everything before
    that part can be read and is no image, what comes after it (further
    parts, further candidates, readable or not) has no effect. *)
Theorem generateLeapImage_first_image
    (before after : list Gemini.Candidate) (pre post : list Gemini.Part)
    (blob : Gemini.Blob) (mime : string) :
  Forall (fun c => Forall (fun s => s = NoImage) (sightCandidate c)) before ->
  Forall (fun p => sightPart p = NoImage) pre ->
  Gemini.mimeType blob = Some mime ->
  String.prefix "image/" mime = true ->
  Gemini.generateLeapImage
    (Ok {| Gemini.candidates := Some
             (before ++
              {| Gemini.content := Some
                   {| Gemini.parts := Some
                        (pre ++ {| Gemini.inlineData := Some blob |} :: post) |} |}
              :: after) |})
  = Ok (Gemini.data blob).
Proof.
  intros Hbefore Hpre Hmime Himage.
  rewrite generateLeapImage_sightings. cbn [Gemini.candidates default from_option id].
  rewrite sightings_app, firstSighting_quiet by by apply sightings_quiet.
  unfold sightings. cbn [mbind list_bind].
  unfold sightCandidate at 1. cbn [Gemini.content Gemini.parts mbind option_bind].
  rewrite fmap_app, <- !app_assoc.
  rewrite firstSighting_quiet by by apply Forall_fmap.
  cbn [fmap list_fmap app]. unfold sightPart at 1. cbn [Gemini.inlineData].
  by rewrite Hmime, Himage.
Qed.

Lemma generateLeapImage_first_image_witness :
  Gemini.generateLeapImage
    (Ok {| Gemini.candidates := Some
             ([ {| Gemini.content := Some {| Gemini.parts := Some [] |} |} ] ++
              {| Gemini.content := Some
                   {| Gemini.parts := Some
                        ([ {| Gemini.inlineData := None |};
                           {| Gemini.inlineData := Some
                                {| Gemini.mimeType := Some "text/plain"%string;
                                   Gemini.data := Some "aGk="%string |} |} ] ++
                         {| Gemini.inlineData := Some
                              {| Gemini.mimeType := Some "image/png"%string;
                                 Gemini.data := Some "iVBORw0KGgo="%string |} |}
                         :: [ {| Gemini.inlineData := Some
                                   {| Gemini.mimeType := None;
                                      Gemini.data := None |} |} ]) |} |}
              :: [ {| Gemini.content := None |} ]) |})
  = Ok (Some "iVBORw0KGgo="%string).
Proof.
  apply (generateLeapImage_first_image
           [ {| Gemini.content := Some {| Gemini.parts := Some [] |} |} ]
           [ {| Gemini.content := None |} ]
           [ {| Gemini.inlineData := None |};
             {| Gemini.inlineData := Some
                  {| Gemini.mimeType := Some "text/plain"%string;
                     Gemini.data := Some "aGk="%string |} |} ]
           [ {| Gemini.inlineData := Some
                  {| Gemini.mimeType := None; Gemini.data := None |} |} ]
           {| Gemini.mimeType := Some "image/png"%string;
              Gemini.data := Some "iVBORw0KGgo="%string |}
           "image/png").
  - repeat constructor.
  - repeat constructor.
  - reflexivity.
  - reflexivity.
Defined.

Lemma firstSighting_no_image (l : list Sighting) :
  firstSighting l = Throw (Error "No image generated") <->
  Forall (fun s => s = NoImage) l.
Proof.
  induction l as [|s l IH]; [by split|].
  destruct s; cbn [firstSighting].
  - split; [done | by inversion 1].
  - rewrite IH. split; [by constructor | by inversion 1].
  - split; [done | by inversion 1].
Qed.

Lemma firstSighting_errors (l : list Sighting) (e : JsError) :
  firstSighting l = Throw e ->
  e = TypeError \/ e = Error "No image generated".
Proof.
  induction l as [|s l IH]; cbn [firstSighting].
  - intros [= <-]. by right.
  - destruct s; [done | done | intros [= <-]; by left].
Qed.

(** X10. When the service answers, [generateLeapImage] fails with "No image
    generated" exactly when the scan reads every candidate and every part
    and finds no image (in particular when there are no candidates); its
    only other failure is a TypeError, from a candidate without content or
    parts or an inline datum without MIME type met before any image. *)
Theorem generateLeapImage_failures (r : Gemini.GenerateContentResponse) :
  (Gemini.generateLeapImage (Ok r) = Throw (Error "No image generated") <->
   Forall (fun s => s = NoImage) (sightings (default [] (Gemini.candidates r)))) /\
  (forall e, Gemini.generateLeapImage (Ok r) = Throw e ->
     e = TypeError \/ e = Error "No image generated") /\
  (Gemini.candidates r = None \/ Gemini.candidates r = Some [] ->
   Gemini.generateLeapImage (Ok r) = Throw (Error "No image generated")).
Proof.
  rewrite generateLeapImage_sightings. split; [|split].
  - apply firstSighting_no_image.
  - apply firstSighting_errors.
  - by intros [-> | ->].
Qed.

Lemma generateLeapImage_failures_witness :
  Gemini.generateLeapImage (Ok {| Gemini.candidates := None |})
  = Throw (Error "No image generated").
Proof.
  destruct (generateLeapImage_failures {| Gemini.candidates := None |})
    as (_ & _ & Hnone).
  apply Hnone. by left.
Defined.

(** ** Blank topics and the hidden trigger *)

Lemma trimStart_cases (s : string) :
  (blank s = true /\ trimStart s = ""%string) \/
  (blank s = false /\
   exists c s', trimStart s = String c s' /\ isWhiteSpace c = false).
Proof.
  induction s as [|c s IH]; [by left|].
  cbn [blank trimStart]. destruct (isWhiteSpace c) eqn:Hc; [apply IH|].
  right. split; [done|]. by exists c, s.
Qed.

Lemma blank_reverse (s acc : string) :
  blank (reverse s acc) = blank s && blank acc.
Proof.
  revert acc. induction s as [|c s IH]; intros acc; [done|].
  cbn [reverse blank]. rewrite IH. cbn [blank].
  by destruct (isWhiteSpace c), (blank s), (blank acc).
Qed.

Lemma reverse_empty (s acc : string) :
  reverse s acc = ""%string -> s = ""%string /\ acc = ""%string.
Proof.
  revert acc. induction s as [|c s IH]; intros acc; [done|].
  cbn [reverse]. intros H. by destruct (IH _ H).
Qed.

Lemma trimStart_blank (s : string) :
  trimStart s = ""%string <-> blank s = true.
Proof.
  destruct (trimStart_cases s) as [[Hb ->] | [Hb (c & s' & -> & _)]];
    rewrite Hb; by split.
Qed.

Lemma trimEnd_blank (s : string) :
  trimEnd s = ""%string <-> blank s = true.
Proof.
  unfold trimEnd. split.
  - intros H. apply reverse_empty in H as [H _].
    apply trimStart_blank in H. rewrite blank_reverse in H.
    by apply andb_true_iff in H as [H _].
  - intros H.
    assert (trimStart (reverse s "") = ""%string) as ->; [|done].
    apply trimStart_blank. rewrite blank_reverse, H. done.
Qed.

Lemma trim_blank (s : string) : trim s = ""%string <-> blank s = true.
Proof.
  unfold trim. rewrite trimEnd_blank.
  destruct (trimStart_cases s) as [[Hb ->] | [Hb (c & s' & -> & Hc)]];
    rewrite Hb; cbn [blank]; [done|].
  rewrite Hc. done.
Qed.

Lemma falsy_trim (s : string) : falsy (trim s) = blank s.
Proof.
  destruct (blank s) eqn:Hb.
  - apply trim_blank in Hb. by rewrite Hb.
  - destruct (trim s) eqn:Ht; [|done].
    apply trim_blank in Ht. congruence.
Qed.

Lemma blank_app (a b : string) : blank (a ++ b) = blank a && blank b.
Proof.
  induction a as [|c a IH]; [done|]. cbn [append blank]. rewrite IH.
  by destruct (isWhiteSpace c).
Qed.

Lemma lowerChar_whitespace (c : ascii) :
  isWhiteSpace c = true -> lowerChar c = c.
Proof.
  destruct c as [[] [] [] [] [] [] [] []]; vm_compute; congruence.
Qed.

(** A stretch that lower-cases to a word of letters is not blank. *)
Lemma lowered_not_blank (mid : string) (c : ascii) (word : string) :
  toLowerCase mid = String c word -> isWhiteSpace c = false ->
  blank mid = false.
Proof.
  destruct mid as [|c' mid]; [done|]. cbn [toLowerCase blank].
  intros [= Hc _] Hw.
  destruct (isWhiteSpace c') eqn:Hc'; [|done].
  pose proof (lowerChar_whitespace c' Hc'). congruence.
Qed.

Lemma contains_not_blank (s : string) (c : ascii) (word : string) :
  containsIgnoringCase s (String c word) -> isWhiteSpace c = false ->
  blank s = false.
Proof.
  intros (pre & mid & post & -> & Hmid) Hc.
  rewrite !blank_app, (lowered_not_blank mid c word Hmid Hc).
  by destruct (blank pre).
Qed.

(** X11. A topic of white space only (the empty topic too) does nothing,
    whichever way the leap is asked for: the Enter key, the button or the
    handler itself leave the application as it is and call nothing. *)
Theorem blank_topic_ignored (svc : Services) (key : string) (app : App) :
  blank (topic app) = true ->
  handleLeap svc app = (app, []) /\
  handleKeyDown svc key app = (app, []) /\
  clickLeap svc app = (app, []).
Proof.
  intros Hb.
  assert (handleLeap svc app = (app, [])) as Hleap
    by (unfold handleLeap; by rewrite falsy_trim, Hb).
  unfold handleKeyDown, clickLeap. rewrite Hleap.
  repeat split; by destruct (_ && _) || by destruct (_ || _).
Qed.

Lemma blank_topic_ignored_witness :
  handleLeap example_services (example_app "   ") = (example_app "   ", []) /\
  handleKeyDown example_services "Enter" (example_app "   ")
    = (example_app "   ", []) /\
  clickLeap example_services (example_app "   ") = (example_app "   ", []).
Proof.
  apply (blank_topic_ignored example_services "Enter" (example_app "   ")).
  reflexivity.
Defined.

(** X12. Every topic that contains "aether" or "event", letter case
    ignored, opens the gate: such a topic is never blank, so no further
    condition is needed.  The Enter key and the button do the same when no
    run is under way. *)
Theorem trigger_opens_gate (svc : Services) (app : App) :
  containsIgnoringCase (topic app) "aether" \/
  containsIgnoringCase (topic app) "event" ->
  let opened := ({| topic := ""; showGate := true; state := state app |}, []) in
  handleLeap svc app = opened /\
  (busy (status (state app)) = false ->
   handleKeyDown svc "Enter" app = opened /\ clickLeap svc app = opened).
Proof.
  intros Hgate. cbn zeta.
  assert (blank (topic app) = false) as Hb
    by (destruct Hgate as [H|H]; by apply contains_not_blank in H).
  assert (handleLeap svc app =
          ({| topic := ""; showGate := true; state := state app |}, [])) as Hleap.
  { unfold handleLeap. rewrite falsy_trim, Hb.
    rewrite <- !includes_toLowerCase in Hgate.
    by destruct Hgate as [-> | ->]; rewrite ?orb_true_r. }
  split; [done|]. intros Hbusy. unfold handleKeyDown, clickLeap.
  rewrite Hbusy, Hleap. cbn [negb andb orb String.eqb].
  split; [done|]. by destruct (topic app).
Qed.

Lemma trigger_opens_gate_witness :
  handleLeap example_services (example_app "Prevention")
  = ({| topic := ""; showGate := true; state := state initialApp |}, []).
Proof.
  destruct (trigger_opens_gate example_services (example_app "Prevention"))
    as [Hopened _]; [|exact Hopened].
  right. exists "Pr"%string, "event"%string, "ion"%string. split; reflexivity.
Defined.

(** ** Failed and completed runs *)

Lemma handleLeap_analysis (svc : Services) (app : App) :
  blank (topic app) = false ->
  includes (toLowerCase (topic app)) "aether"
    || includes (toLowerCase (topic app)) "event" = false ->
  handleLeap svc app =
  let fresh err st m img aud :=
    {| topic := topic app; showGate := showGate app;
       state := {| status := st; manifest := m; imageData := img;
                   audioBuffer := aud; errorMessage := err |} |} in
  match generateManifest svc (topic app) with
  | Throw _ =>
      (fresh (Some criticalFailureMessage) error None None None,
       [CallGenerateManifest (topic app)])
  | Ok m =>
      match newAudioContext svc with
      | Throw _ =>
          (fresh (Some criticalFailureMessage) error (Some m) None None,
           [CallGenerateManifest (topic app); CallNewAudioContext])
      | Ok audioCtx =>
          let image := settle (generateLeapImage svc (imagePrompt m)) in
          let audio := settle (generateLeapAudioFor svc (audioScript m) audioCtx) in
          (fresh (if isRejected image || isRejected audio
                  then Some partialFailureMessage else None)
                 complete (Some m) (fulfilledValue image) (fulfilledValue audio),
           [CallGenerateManifest (topic app); CallNewAudioContext;
            CallGenerateLeapImage (imagePrompt m);
            CallGenerateLeapAudio (audioScript m)])
      end
  end.
Proof.
  intros Hb Hgate. unfold handleLeap. rewrite falsy_trim, Hb, Hgate.
  cbn [setState topic state showGate].
  destruct (generateManifest svc (topic app)) as [m|e]; [|done].
  by destruct (newAudioContext svc).
Qed.

Lemma trigger_false (s : string) :
  ~ containsIgnoringCase s "aether" -> ~ containsIgnoringCase s "event" ->
  includes (toLowerCase s) "aether" || includes (toLowerCase s) "event" = false.
Proof.
  rewrite <- !includes_toLowerCase. intros H1 H2.
  by destruct (includes _ "aether"), (includes _ "event").
Qed.

(** X13. A run that cannot go on ends in the status 'error' with the
    critical message and no media, the topic and the gate as they were.
    When the text analysis fails, the manifest is null, whatever the state
    held before, and only the analysis was called.  When the analysis
    returns a manifest but no audio context can be built, the manifest
    stays in the state, and neither media task is called. *)
Theorem handleLeap_critical_failure (svc : Services) (app : App) :
  blank (topic app) = false ->
  ~ containsIgnoringCase (topic app) "aether" ->
  ~ containsIgnoringCase (topic app) "event" ->
  let failed m :=
    {| topic := topic app; showGate := showGate app;
       state := {| status := error; manifest := m; imageData := None;
                   audioBuffer := None;
                   errorMessage := Some criticalFailureMessage |} |} in
  (forall e, generateManifest svc (topic app) = Throw e ->
     handleLeap svc app = (failed None, [CallGenerateManifest (topic app)])) /\
  (forall m e, generateManifest svc (topic app) = Ok m ->
     newAudioContext svc = Throw e ->
     handleLeap svc app =
     (failed (Some m), [CallGenerateManifest (topic app); CallNewAudioContext])).
Proof.
  intros Hb Hno1 Hno2. cbn zeta.
  rewrite handleLeap_analysis by (done || by apply trigger_false).
  cbn zeta. split.
  - by intros e ->.
  - by intros m e -> ->.
Qed.

Lemma handleLeap_critical_failure_witness :
  handleLeap failing_services (completed_app "Tokyo")
  = ({| topic := "Tokyo"; showGate := false;
        state := {| status := error; manifest := None; imageData := None;
                    audioBuffer := None;
                    errorMessage := Some criticalFailureMessage |} |},
     [CallGenerateManifest "Tokyo"]).
Proof.
  destruct (handleLeap_critical_failure failing_services (completed_app "Tokyo"))
    as [Hfailed _].
  - reflexivity.
  - intros H. apply includes_toLowerCase in H. discriminate.
  - intros H. apply includes_toLowerCase in H. discriminate.
  - exact (Hfailed (Error "No text returned from Gemini") eq_refl).
Defined.

(** X14. The collaborators a run calls.  None exactly when the topic is
    blank or holds the trigger.  Otherwise the text analysis comes first,
    with the topic as typed (not trimmed).  An image is asked for, or a
    speech, only with the prompt and the script of the manifest the analysis
    returned, only both together, and then the run ends in the status
    'complete'. *)
Theorem handleLeap_call_discipline (svc : Services) (app : App) :
  let calls := (handleLeap svc app).2 in
  (calls = [] <->
   blank (topic app) = true \/
   containsIgnoringCase (topic app) "aether" \/
   containsIgnoringCase (topic app) "event") /\
  (calls <> [] -> head calls = Some (CallGenerateManifest (topic app))) /\
  (forall text,
     CallGenerateLeapImage text ∈ calls \/ CallGenerateLeapAudio text ∈ calls ->
     exists m,
       generateManifest svc (topic app) = Ok m /\
       (text = imagePrompt m \/ text = audioScript m) /\
       CallGenerateLeapImage (imagePrompt m) ∈ calls /\
       CallGenerateLeapAudio (audioScript m) ∈ calls /\
       status (state (handleLeap svc app).1) = complete).
Proof.
  cbn zeta. destruct (blank (topic app)) eqn:Hb.
  { assert (handleLeap svc app = (app, [])) as ->
      by (unfold handleLeap; by rewrite falsy_trim, Hb).
    cbn [snd]. split; [split; [by left | done]|].
    split; [done|]. intros text [H|H]; by apply elem_of_nil in H. }
  destruct (includes (toLowerCase (topic app)) "aether"
            || includes (toLowerCase (topic app)) "event") eqn:Hgate.
  { assert (handleLeap svc app =
            ({| topic := ""; showGate := true; state := state app |}, [])) as ->
      by (unfold handleLeap; by rewrite falsy_trim, Hb, Hgate).
    cbn [snd]. split.
    - split; [|done]. intros _. right.
      rewrite <- !includes_toLowerCase. by apply orb_true_iff.
    - split; [done|]. intros text [H|H]; by apply elem_of_nil in H. }
  rewrite handleLeap_analysis by done. cbn zeta.
  assert (~ (blank (topic app) = true \/
             containsIgnoringCase (topic app) "aether" \/
             containsIgnoringCase (topic app) "event")) as Hnone.
  { rewrite <- !includes_toLowerCase. apply orb_false_iff in Hgate as [-> ->].
    rewrite Hb. intros [|[|]]; done. }
  destruct (generateManifest svc (topic app)) as [m|e]; cbn [snd fst].
  - destruct (newAudioContext svc) as [audioCtx|e]; cbn [snd fst state status].
    + split; [split; [done | intros [H|H]; [done | destruct Hnone; by right]]|].
      split; [done|].
      intros text Htext. exists m. split; [done|]. split.
      * destruct Htext as [H|H]; repeat (apply elem_of_cons in H as [H|H]);
          try discriminate; try (by apply elem_of_nil in H);
          injection H as ->; auto.
      * repeat split; rewrite !elem_of_cons; auto 10.
    + split; [split; [done | intros [H|H]; [done | destruct Hnone; by right]]|].
      split; [done|].
      intros text Htext.
      destruct Htext as [H|H]; repeat (apply elem_of_cons in H as [H|H]);
        try discriminate; by apply elem_of_nil in H.
  - split; [split; [done | intros [H|H]; [done | destruct Hnone; by right]]|].
      split; [done|].
    intros text Htext.
    destruct Htext as [H|H]; repeat (apply elem_of_cons in H as [H|H]);
      try discriminate; by apply elem_of_nil in H.
Qed.

Lemma handleLeap_call_discipline_witness :
  exists m,
    generateManifest example_services (topic (example_app "Black Holes")) = Ok m /\
    ("An accretion disk seen edge on"%string = imagePrompt m \/
     "An accretion disk seen edge on"%string = audioScript m) /\
    CallGenerateLeapImage (imagePrompt m)
      ∈ (handleLeap example_services (example_app "Black Holes")).2 /\
    CallGenerateLeapAudio (audioScript m)
      ∈ (handleLeap example_services (example_app "Black Holes")).2 /\
    status (state (handleLeap example_services (example_app "Black Holes")).1)
      = complete.
Proof.
  destruct (handleLeap_call_discipline example_services (example_app "Black Holes"))
    as (_ & _ & Hmedia).
  apply (Hmedia "An accretion disk seen edge on"%string).
  left. by apply list_elem_of_lookup_2 with 2%nat.
Defined.

(** ** States between runs *)

Lemma handleLeap_cases (svc : Services) (app : App) :
  state (handleLeap svc app).1 = state app \/
  (blank (topic app) = false /\
   includes (toLowerCase (topic app)) "aether"
     || includes (toLowerCase (topic app)) "event" = false).
Proof.
  unfold handleLeap. rewrite falsy_trim.
  destruct (blank (topic app)); [by left|].
  destruct (_ || _); [by left | by right].
Qed.




Lemma generateLeapAudio_monoSpeech (host : endianness) (response : AudioResponse)
    (audioContext : AudioContext) (buf : AudioBuffer) :
  generateLeapAudio host response audioContext = Ok buf -> monoSpeech buf.
Proof.
  unfold generateLeapAudio.
  destruct response as [[base64Audio|]|e]; cbn [bind]; try done.
  destruct (falsy base64Audio); [done|].
  destruct (decode base64Audio) as [bytes|e]; cbn [bind]; [|done].
  intros Hbuf. pose proof (decodeAudioData_inv _ _ _ _ _ _ Hbuf) as (_ & _ & Hf & Heq).
  unfold monoSpeech. rewrite Heq at 1 2 3. cbn [sampleRate numberOfChannels frameLength].
  repeat split; try done.
  intros c i x Hx.
  destruct (decodeAudioData_sample_origin _ _ _ _ _ _ _ _ _ Hbuf Hx) as (s & Hs & ->).
  eexists. split; [done|]. by apply normalize_bounds.
Qed.

Lemma handleLeap_monoSpeech (svc : Services) (app : App) :
  (exists host manifestTask imageTask speech context,
      svc = servicesWithAudio host manifestTask imageTask speech context) ->
  (forall buf, audioBuffer (state app) = Some buf -> monoSpeech buf) ->
  forall buf, audioBuffer (state (handleLeap svc app).1) = Some buf -> monoSpeech buf.
Proof.
  intros (host & mt & it & speech & context & ->) Hold buf.
  destruct (handleLeap_cases (servicesWithAudio host mt it speech context) app)
    as [-> | [Hb Hgate]]; [apply Hold|].
  rewrite handleLeap_analysis by done. cbn zeta.
  cbn [generateManifest newAudioContext generateLeapAudioFor servicesWithAudio].
  destruct (mt (topic app)) as [m|e]; [|done].
  destruct context as [audioCtx|e]; [|done].
  cbn [fst state audioBuffer].
  destruct (generateLeapAudio host _ audioCtx) as [b|e] eqn:Haudio; [|done].
  cbn. intros [= <-]. by eapply generateLeapAudio_monoSpeech.
Qed.

(** X16. When every leap runs with the service module's audio task, the
    audio buffer the state holds, at any moment between runs, is a speech
    buffer: one channel at 24000 Hz, at least one frame, every sample a
    number in [-1, 1). *)
Theorem reachable_audio_is_speech (events : list Event) (buf : AudioBuffer) :
  Forall usesGeminiAudio events ->
  audioBuffer (state (run events initialApp)) = Some buf ->
  monoSpeech buf.
Proof.
  unfold run. intros Hevents.
  assert (forall b, audioBuffer (state initialApp) = Some b -> monoSpeech b)
    as Hinit by done.
  revert Hinit buf. generalize initialApp.
  induction Hevents as [|e events He _ IH]; intros app Hold buf; [apply Hold|].
  cbn [foldl]. apply IH. clear IH buf. intros buf. unfold step.
  destruct (showGate app); destruct e; try apply Hold.
  - unfold typeTopic. destruct (busy _); apply Hold.
  - unfold handleKeyDown. destruct (_ && _); [|apply Hold].
    by apply handleLeap_monoSpeech.
  - unfold clickLeap. destruct (_ || _); [apply Hold|].
    by apply handleLeap_monoSpeech.
Qed.

Lemma reachable_audio_is_speech_witness : monoSpeech pcm_example_mono.
Proof.
  apply (reachable_audio_is_speech
           [TypeTopic "Black Holes"; ClickLeap example_services;
            ClickProtocol72; CloseGate; TypeTopic "  ";
            PressKey "Enter" failing_services]
           pcm_example_mono).
  - repeat constructor.
    + by exists LittleEndian, (fun _ => Ok example_manifest),
        (fun _ => Throw (Error "No image generated")),
        (fun _ => Ok (Some "AAAAQACA/38="%string)), (Ok baselineContext).
    + by exists LittleEndian,
        (fun _ => Throw (Error "No text returned from Gemini")),
        (fun _ => Throw (Error "No image generated")),
        (fun _ => Ok (Some "AAAAQACA/38="%string)), (Ok baselineContext).
  - reflexivity.
Defined.

(** ** The log of the gate *)

Lemma addLog_slice (msg : string) (prev : list string) :
  addLog msg prev = sliceFromEnd 7 (prev ++ [("> " ++ msg)%string]).
Proof.
  unfold addLog, sliceFromEnd. rewrite length_app. cbn [length].
  replace (length prev + 1 - 7)%nat with (length prev - 6)%nat by lia.
  by rewrite drop_app_le by lia.
Qed.

Lemma sliceFromEnd_app {A : Type} (n : nat) (l r : list A) :
  sliceFromEnd n (sliceFromEnd n l ++ r) = sliceFromEnd n (l ++ r).
Proof.
  unfold sliceFromEnd. rewrite !length_app, length_drop.
  destruct (decide (length l <= n)%nat) as [Hshort|Hlong].
  - replace (length l - n)%nat with 0%nat by lia. cbn [drop].
    by rewrite Nat.sub_0_r.
  - replace (length l - (length l - n) + length r - n)%nat with (length r) by lia.
    destruct (decide (length r <= n)%nat) as [Hr|Hr].
    + rewrite !drop_app_le by (rewrite ?length_drop; lia).
      rewrite drop_drop. do 2 f_equal. lia.
    + rewrite !drop_app_ge by (rewrite ?length_drop; lia).
      rewrite length_drop. f_equal. lia.
Qed.

Lemma sliceFromEnd_length {A : Type} (n : nat) (l : list A) :
  length (sliceFromEnd n l) = (length l `min` n)%nat.
Proof. unfold sliceFromEnd. rewrite length_drop. lia. Qed.

(** X17. The log of the gate shows the last seven messages: after any
    number of [addLog] calls on a log of at most seven lines, the log is
    the last seven lines of the old log followed by the new messages, each
    behind "> ", in the order they came; it never grows beyond seven. *)
Theorem addLog_last_seven (log : list string) (msgs : list string) :
  (length log <= 7)%nat ->
  let log' := foldl (fun prev msg => addLog msg prev) log msgs in
  log' = sliceFromEnd 7 (log ++ ((fun msg => "> " ++ msg)%string <$> msgs)) /\
  (length log' <= 7)%nat.
Proof.
  intros Hlog. cbn zeta.
  assert (foldl (fun prev msg => addLog msg prev) log msgs =
          sliceFromEnd 7 (log ++ ((fun msg => "> " ++ msg)%string <$> msgs))) as ->.
  { induction msgs as [|msg msgs IH] using rev_ind.
    - cbn [foldl fmap list_fmap]. rewrite app_nil_r. unfold sliceFromEnd.
      by replace (length log - 7)%nat with 0%nat by lia.
    - rewrite foldl_snoc, IH, addLog_slice, sliceFromEnd_app.
      by rewrite fmap_app, app_assoc. }
  split; [done|]. rewrite sliceFromEnd_length. lia.
Qed.

Lemma addLog_last_seven_witness :
  let log' :=
    foldl (fun prev msg => addLog msg prev) []
      ["1"; "2"; "3"; "4"; "5"; "6"; "7"; "8"; "9"]%string in
  log' = sliceFromEnd 7
           ([] ++ ((fun msg => "> " ++ msg)%string
                     <$> ["1"; "2"; "3"; "4"; "5"; "6"; "7"; "8"; "9"]%string)) /\
  (length log' <= 7)%nat.
Proof.
  apply (addLog_last_seven [] ["1"; "2"; "3"; "4"; "5"; "6"; "7"; "8"; "9"]%string).
  cbn. lia.
Defined.

Example addLog_nine :
  foldl (fun prev msg => addLog msg prev) []
    ["1"; "2"; "3"; "4"; "5"; "6"; "7"; "8"; "9"]%string
  = ["> 3"; "> 4"; "> 5"; "> 6"; "> 7"; "> 8"; "> 9"]%string.
Proof. reflexivity. Qed.
